(** * The e-mail agent: monitoring scheduler and processing pipeline

    A shallow embedding of the server-side core of the AI e-mail agent:

    - [services/openaiService.ts]  the classifier client ([analyzeEmail],
      [generateReply]);
    - [services/gmailService.ts]   the mail client ([getEmails],
      [getEmailContent], [sendEmail], [starEmail]);
    - [storage.ts]                 the log and activity sink and the
      credential store ([DatabaseStorage]);
    - [services/emailProcessor.ts] the scheduler ([startMonitoring],
      [stopMonitoring]) and the pipeline ([processNewEmails],
      [processEmail], [handleReplyAction], [handleStarAction]).

    Modelling conventions.

    - An [async] method is a function from a [World] to a [World] and an
      [Outcome]: the promise either resolves ([Returns]) or rejects
      ([Throws]); what was written before a rejection stays written.
    - The database behind [storage] is the tables of the [World]: a query
      is a function of the tables; an insert appends its row, or rejects
      and writes nothing when a text of the row holds the character
      U+0000, which Postgres refuses in [text] and [jsonb].  The database
      itself is taken to answer.  The two remote services (the
      Gmail API and the OpenAI API) are oracles of an [Env]: what they
      answer may depend on every service call made so far, and each
      answer may be a rejection.
    - A JavaScript string is kept as the bytes of its UTF-8 encoding;
      a string with an unpaired surrogate has none and is not modelled.
    - [console.error] writes nothing the model keeps. *)

From Stdlib Require Import QArith Qround Lqa Sorted.
From stdpp Require Import gmap strings list.

Local Open Scope string_scope.
Local Open Scope list_scope.

(** ** JavaScript values of the classifier's JSON answer *)

(** A JavaScript number.  A finite number is kept as the rational it
    denotes (every double is one); the model has a single zero. *)
Inductive JSNumber : Type :=
| NaN
| NegInfinity
| Finite (q : Q)
| PosInfinity.

(** What [JSON.parse] can leave in a property: the property is missing
    ([JSUndefined]) or holds [null], a boolean, a number, a string, an
    array or an object.  Of an object the names of its own properties are
    kept: no property of a parsed object is a function, so what the
    conversions of an object give depends on these names only. *)
#[warnings="-register-all"]
Inductive JSValue : Type :=
| JSUndefined
| JSNull
| JSBoolean (b : bool)
| JSNum (n : JSNumber)
| JSString (s : string)
| JSArray (elements : list JSValue)
| JSObject (keys : list string).

Definition zero : JSNumber := Finite 0.
Definition one : JSNumber := Finite 1.

(** [Math.min(a, b)]: [NaN] when either argument is. *)
Definition Math_min (a b : JSNumber) : JSNumber :=
  match a, b with
  | NaN, _ | _, NaN => NaN
  | NegInfinity, _ | _, NegInfinity => NegInfinity
  | PosInfinity, x | x, PosInfinity => x
  | Finite p, Finite q => if Qle_bool p q then Finite p else Finite q
  end.

(** [Math.max(a, b)]: [NaN] when either argument is. *)
Definition Math_max (a b : JSNumber) : JSNumber :=
  match a, b with
  | NaN, _ | _, NaN => NaN
  | PosInfinity, _ | _, PosInfinity => PosInfinity
  | NegInfinity, x | x, NegInfinity => x
  | Finite p, Finite q => if Qle_bool p q then Finite q else Finite p
  end.

(** *** Doubles

    The numbers of the program are the doubles among the rationals.
    [to_double] rounds a rational to the nearest double, a tie going to
    the even significand (IEEE 754 binary64, round to nearest, ties to
    even); from the middle between the largest double and [2^1024] on it
    gives an infinity. *)

(** The integer nearest to [n / d], for [0 < d]; of two the even one. *)
Definition nearest_even (n d : Z) : Z :=
  let q := (n / d)%Z in
  match (2 * (n mod d) ?= d)%Z with
  | Lt => q
  | Eq => if Z.even q then q else (q + 1)%Z
  | Gt => (q + 1)%Z
  end.

(** The double nearest to [n / d].  [k] is the binary exponent of
    [n / d] and [e] that of the last place of its significand of 53 bits,
    [-1074] at least (the subnormal numbers); [m] is the significand. *)
Definition binary64 (n d : positive) : JSNumber :=
  let over (e : Z) : Z * Z :=
    if (0 <=? e)%Z then (Zpos n, Zpos d * 2 ^ e)%Z
    else (Zpos n * 2 ^ (- e), Zpos d)%Z in
  let k0 := (Z.log2 (Zpos n) - Z.log2 (Zpos d))%Z in
  let k := let '(a, b) := over k0 in if (b <=? a)%Z then k0 else (k0 - 1)%Z in
  let e := Z.max (k - 52) (-1074) in
  let m := let '(a, b) := over e in nearest_even a b in
  if (0 <=? e)%Z
  then if (2 ^ 1024 <=? m * 2 ^ e)%Z then PosInfinity
       else Finite (inject_Z (m * 2 ^ e))
  else Finite (Qred (Qmake m (Z.to_pos (2 ^ (- e))))).

Definition to_double (q : Q) : JSNumber :=
  match Qnum q with
  | Z0 => Finite 0
  | Zpos n => binary64 n (Qden q)
  | Zneg n =>
      match binary64 n (Qden q) with
      | Finite r => Finite (- r)
      | _ => NegInfinity
      end
  end.

(** [Math.round(x)]: the nearest integer, a half going up. *)
Definition Math_round (x : JSNumber) : JSNumber :=
  match x with
  | Finite q => Finite (inject_Z (Qfloor (q + (1 # 2))))
  | _ => x
  end.

(** [Math.round((s / n) * 100)] for two counts, [n] not 0: the quotient
    and the product are doubles. *)
Definition Math_round_percent (s n : nat) : JSNumber :=
  match to_double (Qmake (Z.of_nat s) (Pos.of_nat n)) with
  | Finite r => Math_round (to_double (r * 100))
  | x => x
  end.

(** *** [StringToNumber]

    The string is read as its UTF-8 bytes.  A finite literal denotes the
    double nearest to its decimal value. *)

Definition codes (s : string) : list N :=
  map Ascii.N_of_ascii (String.list_ascii_of_string s).

(** Length in bytes of the [StrWhiteSpaceChar] at the head of the bytes, 0
    when there is none: TAB, LF, VT, FF, CR, SP, then U+00A0, U+1680,
    U+2000..U+200A, U+2028, U+2029, U+202F, U+205F, U+3000, U+FEFF. *)
Definition ws_len (l : list N) : nat :=
  match l with
  | 9%N :: _ | 10%N :: _ | 11%N :: _ | 12%N :: _ | 13%N :: _ | 32%N :: _ => 1
  | 194%N :: 160%N :: _ => 2
  | 225%N :: 154%N :: 128%N :: _ => 3
  | 226%N :: 128%N :: c :: _ =>
      if ((128 <=? c) && (c <=? 138))%N || (c =? 168)%N || (c =? 169)%N
         || (c =? 175)%N
      then 3 else 0
  | 226%N :: 129%N :: 159%N :: _ => 3
  | 227%N :: 128%N :: 128%N :: _ => 3
  | 239%N :: 187%N :: 191%N :: _ => 3
  | _ => 0
  end%nat.

Fixpoint skip_ws_fuel (fuel : nat) (l : list N) : list N :=
  match fuel with
  | O => l
  | S fuel' =>
      match ws_len l with
      | O => l
      | k => skip_ws_fuel fuel' (drop k l)
      end
  end.

Definition skip_ws (l : list N) : list N := skip_ws_fuel (length l) l.

(** The value of a digit in the given base, when the byte is one. *)
Definition digit_value (base : N) (c : N) : option N :=
  let v :=
    if ((48 <=? c) && (c <=? 57))%N then Some (c - 48)%N
    else if ((97 <=? c) && (c <=? 102))%N then Some (c - 87)%N
    else if ((65 <=? c) && (c <=? 70))%N then Some (c - 55)%N
    else None in
  match v with
  | Some d => if (d <? base)%N then Some d else None
  | None => None
  end.

(** The longest run of digits at the head: their values, and the rest. *)
Fixpoint take_digits (base : N) (l : list N) : list N * list N :=
  match l with
  | [] => ([], [])
  | c :: r =>
      match digit_value base c with
      | Some d => let '(ds, rest) := take_digits base r in (d :: ds, rest)
      | None => ([], l)
      end
  end.

Definition digits_value (base : N) (ds : list N) : N :=
  fold_left (fun acc d => (acc * base + d)%N) ds 0%N.

(** [m * 10^k] as a rational. *)
Definition scale10 (m : N) (k : Z) : Q :=
  match k with
  | Zneg p => Qmake (Z.of_N m) (Pos.pow 10 p)
  | _ => Qmake (Z.of_N m * 10 ^ k) 1
  end.

(** [ExponentPart], optional: the exponent read and the rest; no exponent
    is read unless [e] or [E] is followed by a [SignedInteger]. *)
Definition exponent_part (l : list N) : Z * list N :=
  match l with
  | c :: r =>
      if (c =? 101)%N || (c =? 69)%N then
        let '(neg, r1) :=
          match r with
          | 43%N :: r' => (false, r')
          | 45%N :: r' => (true, r')
          | _ => (false, r)
          end in
        match take_digits 10 r1 with
        | ([], _) => (0%Z, l)
        | (ds, rest) =>
            let e := Z.of_N (digits_value 10 ds) in
            ((if neg then - e else e)%Z, rest)
        end
      else (0%Z, l)
  | [] => (0%Z, l)
  end.

Definition Infinity_codes : list N := codes "Infinity".

(** [StrUnsignedDecimalLiteral] at the head of the bytes. *)
Definition unsigned_decimal (l : list N) : option (JSNumber * list N) :=
  if bool_decide (take 8 l = Infinity_codes) then Some (PosInfinity, drop 8 l)
  else
    let '(ip, r) := take_digits 10 l in
    match r with
    | 46%N :: r1 =>
        let '(fp, r2) := take_digits 10 r1 in
        match ip, fp with
        | [], [] => None
        | _, _ =>
            let '(e, rest) := exponent_part r2 in
            Some (to_double (scale10 (digits_value 10 (ip ++ fp))
                                     (e - Z.of_nat (length fp))), rest)
        end
    | _ =>
        match ip with
        | [] => None
        | _ =>
            let '(e, rest) := exponent_part r in
            Some (to_double (scale10 (digits_value 10 ip) e), rest)
        end
    end.

Definition negate (n : JSNumber) : JSNumber :=
  match n with
  | NaN => NaN
  | NegInfinity => PosInfinity
  | PosInfinity => NegInfinity
  | Finite q => Finite (- q)
  end.

(** [NonDecimalIntegerLiteral]: [0x], [0o] or [0b] (either case) and at
    least one digit of that base. *)
Definition non_decimal (l : list N) : option (JSNumber * list N) :=
  match l with
  | 48%N :: p :: r =>
      let base : option N :=
        if (p =? 120)%N || (p =? 88)%N then Some 16%N
        else if (p =? 111)%N || (p =? 79)%N then Some 8%N
        else if (p =? 98)%N || (p =? 66)%N then Some 2%N
        else None in
      match base with
      | Some b =>
          match take_digits b r with
          | ([], _) => None
          | (ds, rest) =>
              Some (to_double (inject_Z (Z.of_N (digits_value b ds))), rest)
          end
      | None => None
      end
  | _ => None
  end.

(** [StrNumericLiteral] at the head of the bytes. *)
Definition numeric_literal (l : list N) : option (JSNumber * list N) :=
  match non_decimal l with
  | Some r => Some r
  | None =>
      match l with
      | 43%N :: r => unsigned_decimal r
      | 45%N :: r =>
          match unsigned_decimal r with
          | Some (n, rest) => Some (negate n, rest)
          | None => None
          end
      | _ => unsigned_decimal l
      end
  end.

(** [StringToNumber]: white space around one numeric literal, or only
    white space (0); anything else is [NaN]. *)
Definition StringToNumber (s : string) : JSNumber :=
  match skip_ws (codes s) with
  | [] => zero
  | l =>
      match numeric_literal l with
      | Some (n, rest) =>
          match skip_ws rest with
          | [] => n
          | _ => NaN
          end
      | None => NaN
      end
  end.

(** [ToBoolean]: an array and an object are true, also when empty. *)
Definition ToBoolean (v : JSValue) : bool :=
  match v with
  | JSUndefined | JSNull => false
  | JSBoolean b => b
  | JSNum NaN => false
  | JSNum (Finite q) => negb (Qeq_bool q 0)
  | JSNum _ => true
  | JSString s => negb (String.eqb s "")
  | JSArray _ | JSObject _ => true
  end.

(** Whether [ToString] of the value throws a [TypeError].  The string of
    an object is asked of its [toString]: the inherited one answers
    ["[object Object]"]; an own property of that name is not a function
    and [valueOf] gives no primitive, so the conversion throws.  The
    string of an array is that of its elements, joined. *)
Fixpoint ToString_throws (v : JSValue) : bool :=
  match v with
  | JSObject keys => existsb (String.eqb "toString") keys
  | JSArray elements => existsb ToString_throws elements
  | _ => false
  end.

(** [ToNumber]; [None] when it throws.  An object that has a string has
    ["[object Object]"], which is no number.  An array is converted by
    way of its string, its elements joined with commas: no numeric
    literal has a comma; the string of the empty array is empty; that of
    an array of one element is the string of the element, empty for
    [null], and the string of a number reads back as the number. *)
Fixpoint ToNumber (v : JSValue) : option JSNumber :=
  match v with
  | JSUndefined => Some NaN
  | JSNull => Some zero
  | JSBoolean b => Some (if b then one else zero)
  | JSNum n => Some n
  | JSString s => Some (StringToNumber s)
  | JSObject _ => if ToString_throws v then None else Some NaN
  | JSArray elements =>
      if existsb ToString_throws elements then None
      else
        match elements with
        | [] => Some zero
        | [x] =>
            match x with
            | JSUndefined | JSNull => Some zero
            | JSBoolean _ | JSObject _ => Some NaN
            | JSNum n => Some n
            | JSString s => Some (StringToNumber s)
            | JSArray _ => ToNumber x
            end
        | _ => Some NaN
        end
  end.

(** [v || d]. *)
Definition js_or (v d : JSValue) : JSValue := if ToBoolean v then v else d.

(** [openaiService.ts], line 71:
    [Math.max(0, Math.min(1, result.confidence || 0))]; [None] when the
    conversion to a number throws. *)
Definition clampConfidence (raw : JSValue) : option JSNumber :=
  n ← ToNumber (js_or raw (JSNum zero)); Some (Math_max zero (Math_min one n)).

Arguments clampConfidence : simpl never.

(** A number of the closed interval from 0 to 1. *)
Definition in_unit_interval (c : JSNumber) : Prop :=
  match c with
  | Finite q => (0 <= q /\ q <= 1)%Q
  | _ => False
  end.

(** The raw confidence is missing, [null], a boolean or a number. *)
Definition plain (raw : JSValue) : Prop :=
  match raw with
  | JSUndefined | JSNull | JSBoolean _ | JSNum _ => True
  | _ => False
  end.

(** ** Rows of the database ([shared/schema.ts]) *)

(** A row of [user_credentials], with the columns the core reads.  A
    nullable column is an [option]. *)
Record UserCredentials : Type := {
  cred_userId : string;
  openaiApiKey : option string;
  gmailAccessToken : option string;
  gmailRefreshToken : option string;
  resumeLink : option string;
  personalDescription : option string;
  agentActive : option bool
}.

(** [InsertEmailLog]: a row of [email_logs] without [id] and [createdAt]. *)
Record InsertEmailLog : Type := {
  userId : string;
  emailId : string;
  fromEmail : string;
  subject : option string;
  action : string;
  responseText : option string;
  status : string
}.

(** [EmailLog]: a stored row. [id] is the serial key and [createdAt] the
    instant of the insertion ([defaultNow]). *)
Record EmailLog : Type := {
  id : nat;
  log_fields :> InsertEmailLog;
  createdAt : nat
}.

(** The [metadata] object of an activity written by [processEmail].
    [confidence] is a number ([JSNum]) in the object [processEmail]
    builds; a stored row has what the [jsonb] column keeps of it. *)
Record Metadata : Type := {
  meta_from : string;
  meta_subject : string;
  meta_action : string;
  meta_confidence : JSValue
}.

(** [InsertActivity] and [Activity]. *)
Record InsertActivity : Type := {
  act_userId : string;
  act_type : string;
  description : string;
  metadata : Metadata
}.

Record Activity : Type := {
  act_id : nat;
  act_fields :> InsertActivity;
  act_createdAt : nat
}.

(** ** Messages of the Gmail API *)

Record Header : Type := { name : string; value : string }.

(** A part of a payload: [mimeType] and [body?.data]. *)
Record Part : Type := { mimeType : string; part_data : option string }.

(** [email.payload]: [headers], [body?.data] and [parts]; a property the
    API left out is [None]. *)
Record Payload : Type := {
  headers : option (list Header);
  body_data : option string;
  parts : option (list Part)
}.

(** A message as [gmail.users.messages.get] returns it. *)
Record Email : Type := { email_id : string; payload : option Payload }.

(** ** Service calls, worlds and outcomes *)

(** A method of the mail client or of the classifier client was entered,
    with these arguments. *)
Inductive Call : Type :=
| GetEmails (user query : string) (maxResults : nat)
| GetEmailContent (message : string)
| SendEmail (user to subj body : string)
| StarEmail (user message : string)
| AnalyzeEmail (user emailContent : string)
| GenerateReply (user emailContent from : string).

(** Whether the call is one to the mail client. *)
Definition is_mail_call (c : Call) : bool :=
  match c with
  | GetEmails _ _ _ | GetEmailContent _ | SendEmail _ _ _ _ | StarEmail _ _ => true
  | AnalyzeEmail _ _ | GenerateReply _ _ _ => false
  end.

(** The state the core reads and writes: the three tables (rows in the
    order of insertion), the clock of the database, and the service calls
    made so far, oldest first. *)
Record World : Type := {
  userCredentials : list UserCredentials;
  emailLogs : list EmailLog;
  activities : list Activity;
  clock : nat;
  calls : list Call
}.

(** What a JavaScript [throw] carries, as far as the core tells them
    apart (it does not). *)
Inductive Exn : Type :=
| Error (message : string)
| TypeError
| ApiError
| DatabaseError.

Inductive Outcome (A : Type) : Type :=
| Returns (a : A)
| Throws (e : Exn).
Arguments Returns {A} a.
Arguments Throws {A} e.

(** An [async] computation. *)
Definition M (A : Type) : Type := World -> World * Outcome A.

Definition ret {A} (a : A) : M A := fun w => (w, Returns a).

Definition throw {A} (e : Exn) : M A := fun w => (w, Throws e).

Definition bind {A B} (m : M A) (k : A -> M B) : M B :=
  fun w =>
    match m w with
    | (w', Returns a) => k a w'
    | (w', Throws e) => (w', Throws e)
    end.

(** [try { m } catch (error) { handler }]. *)
Definition try_catch {A} (m : M A) (handler : Exn -> M A) : M A :=
  fun w =>
    match m w with
    | (w', Returns a) => (w', Returns a)
    | (w', Throws e) => handler e w'
    end.

Declare Scope async_scope.
Delimit Scope async_scope with async.
Notation "'let*' x ':=' m 'in' k" := (bind m (fun x => k))
  (at level 10, x pattern, m at level 100, k at level 200) : async_scope.
Notation "m ';;' k" := (bind m (fun _ => k))
  (at level 100, k at level 200, right associativity) : async_scope.
Local Open Scope async_scope.

(** The world after a computation, and what it gave. *)
Definition world_after {A} (m : M A) (w : World) : World := fst (m w).
Definition outcome_of {A} (m : M A) (w : World) : Outcome A := snd (m w).

(** The classifier's JSON answer as [JSON.parse] reads it: the three
    properties of [result].  [action] and [reasoning] are taken to be
    strings when they are there, as the prompt asks; an answer with
    another JSON value in their place is outside the model. *)
Record RawAnalysis : Type := {
  raw_action : option string;
  raw_confidence : JSValue;
  raw_reasoning : option string
}.

(** The world outside the program.  Each oracle is asked with the calls
    made so far, the one being answered last.
    - [messages_list]: [gmail.users.messages.list] and the [get] of each
      listed message; [None] when a request rejects.
    - [messages_send], [messages_modify]: whether the request resolves.
    - [chat_json]: the completion of [analyzeEmail] read by [JSON.parse];
      [None] when anything inside its [try] throws (the request rejects,
      there is no choice, the text is not JSON or is [null]).
    - [chat_text]: the completion of [generateReply], given the personal
      description and the resume link of the prompt; [None] when the
      request rejects or has no choice, else [message.content].
    - [base64_toString]: [Buffer.from(data, 'base64').toString()]. *)
Record Env : Type := {
  messages_list : list Call -> option (list Email);
  messages_send : list Call -> bool;
  messages_modify : list Call -> bool;
  chat_json : list Call -> option RawAnalysis;
  chat_text : list Call -> string -> string -> option (option string);
  base64_toString : string -> string
}.

(** The call is entered: it joins the history. *)
Definition record_call (c : Call) : M unit :=
  fun w => ({| userCredentials := userCredentials w;
               emailLogs := emailLogs w;
               activities := activities w;
               clock := clock w;
               calls := calls w ++ [c] |}, Returns tt).

(** [s || d] for a string that may be [null]. *)
Definition or_default (s : option string) (d : string) : string :=
  match s with
  | Some v => if String.eqb v "" then d else v
  | None => d
  end.

(** The truth value of a string that may be [null]. *)
Definition truthy (s : option string) : bool :=
  match s with
  | Some v => negb (String.eqb v "")
  | None => false
  end.

(** ** [storage.ts]: [DatabaseStorage] *)

(** [getUserCredentials]: the first row of the user, if any. *)
Definition getUserCredentials (user : string) : M (option UserCredentials) :=
  fun w =>
    (w, Returns (List.find (fun c => String.eqb (cred_userId c) user)
                           (userCredentials w))).

(** Whether the string holds the character U+0000, which Postgres takes
    in no [text] value and in no string of a [jsonb] value. *)
Definition has_NUL (s : string) : bool :=
  existsb (Ascii.eqb Ascii.zero) (String.list_ascii_of_string s).

Definition text_ok (s : string) : bool := negb (has_NUL s).

Definition nullable_text_ok (s : option string) : bool :=
  from_option text_ok true s.

(** Whether [email_logs] takes the row.  Every column of the row is a
    [text] (or [varchar]) without a length; the columns that are
    [NOT NULL] are strings in every row the core builds; and the foreign
    key of [user_id] is that of the credentials record the core has read
    for the user before it inserts. *)
Definition email_logs_accepts (log : InsertEmailLog) : bool :=
  text_ok (userId log) && text_ok (emailId log) && text_ok (fromEmail log)
  && nullable_text_ok (subject log) && text_ok (action log)
  && nullable_text_ok (responseText log) && text_ok (status log).

(** [insertEmailLog]: the row gets the next serial [id] and the present
    instant, and the clock moves on; a row the table does not take is
    not written, and the insert rejects. *)
Definition insertEmailLog (log : InsertEmailLog) : M EmailLog :=
  fun w =>
    if email_logs_accepts log then
      let row := {| id := S (length (emailLogs w));
                    log_fields := log;
                    createdAt := clock w |} in
      ({| userCredentials := userCredentials w;
          emailLogs := emailLogs w ++ [row];
          activities := activities w;
          clock := S (clock w);
          calls := calls w |}, Returns row)
    else (w, Throws DatabaseError).

(** [ORDER BY created_at DESC]: an insertion sort, later rows first; of two
    rows of one instant (SQL leaves their order open) the one inserted
    last comes first. *)
Fixpoint insert_desc (r : EmailLog) (l : list EmailLog) : list EmailLog :=
  match l with
  | [] => [r]
  | x :: l' =>
      if (createdAt x <? createdAt r)%nat then r :: l
      else x :: insert_desc r l'
  end.

Definition orderBy_desc_createdAt (l : list EmailLog) : list EmailLog :=
  fold_right insert_desc [] l.

(** [getUserEmailLogs(userId, limit = 50)]: the rows of the user, latest
    first, at most [limit] of them. *)
Definition getUserEmailLogs (user : string) (limit : option nat)
  : M (list EmailLog) :=
  fun w =>
    let limit := default 50 limit in
    (w, Returns (take limit
                   (orderBy_desc_createdAt
                      (List.filter (fun l : EmailLog => String.eqb (userId l) user)
                                   (emailLogs w))))).

(** Whether [activities] takes the row: the two [text] columns, and the
    strings of the [metadata], which is sent as JSON. *)
Definition activities_accepts (activity : InsertActivity) : bool :=
  text_ok (act_userId activity) && text_ok (act_type activity)
  && text_ok (description activity)
  && text_ok (meta_from (metadata activity))
  && text_ok (meta_subject (metadata activity))
  && text_ok (meta_action (metadata activity)).

(** What [JSON.stringify] keeps of a number: [null] for [NaN] and for the
    infinities. *)
Definition JSON_number (n : JSNumber) : JSValue :=
  match n with
  | Finite q => JSNum (Finite q)
  | _ => JSNull
  end.

(** The activity as the table holds it: the [metadata] has gone through
    JSON. *)
Definition as_stored (activity : InsertActivity) : InsertActivity :=
  {| act_userId := act_userId activity;
     act_type := act_type activity;
     description := description activity;
     metadata :=
       {| meta_from := meta_from (metadata activity);
          meta_subject := meta_subject (metadata activity);
          meta_action := meta_action (metadata activity);
          meta_confidence :=
            match meta_confidence (metadata activity) with
            | JSNum n => JSON_number n
            | v => v
            end |} |}.

(** [insertActivity]: as [insertEmailLog]; the row returned is the row
    stored. *)
Definition insertActivity (activity : InsertActivity) : M Activity :=
  fun w =>
    if activities_accepts activity then
      let row := {| act_id := S (length (activities w));
                    act_fields := as_stored activity;
                    act_createdAt := clock w |} in
      ({| userCredentials := userCredentials w;
          emailLogs := emailLogs w;
          activities := activities w ++ [row];
          clock := S (clock w);
          calls := calls w |}, Returns row)
    else (w, Throws DatabaseError).

Section Services.

Variable env : Env.

(** ** [services/gmailService.ts] *)

(** [getAuthenticatedClient]: throws unless the user has an access
    token. *)
Definition getAuthenticatedClient (user : string) : M unit :=
  let* credentials := getUserCredentials user in
  if negb (truthy (credentials ≫= gmailAccessToken))
  then throw (Error "Gmail not connected")
  else ret tt.

(** [getEmails(userId, query, maxResults)]. *)
Definition getEmails (user query : string) (maxResults : nat)
  : M (list Email) :=
  record_call (GetEmails user query maxResults) ;;
  getAuthenticatedClient user ;;
  fun w =>
    match messages_list env (calls w) with
    | Some emails => (w, Returns emails)
    | None => (w, Throws ApiError)
    end.

(** [sendEmail(userId, to, subject, body)]. *)
Definition sendEmail (user to subj body : string) : M unit :=
  record_call (SendEmail user to subj body) ;;
  getAuthenticatedClient user ;;
  fun w =>
    if messages_send env (calls w) then (w, Returns tt)
    else (w, Throws ApiError).

(** [starEmail(userId, messageId)]. *)
Definition starEmail (user message : string) : M unit :=
  record_call (StarEmail user message) ;;
  getAuthenticatedClient user ;;
  fun w =>
    if messages_modify env (calls w) then (w, Returns tt)
    else (w, Throws ApiError).

(** [headers.find(h => h.name === n)?.value || ''] *)
Definition header_value (n : string) (hs : list Header) : string :=
  match List.find (fun h => String.eqb (name h) n) hs with
  | Some h => value h
  | None => ""
  end.

(** The loop over [parts]: the first [text/plain] part with data. *)
Fixpoint first_plain_part (ps : list Part) : string :=
  match ps with
  | [] => ""
  | p :: ps' =>
      if String.eqb (mimeType p) "text/plain" && truthy (part_data p)
      then base64_toString env (default "" (part_data p))
      else first_plain_part ps'
  end.

Record EmailContent : Type := {
  content_from : string;
  content_subject : string;
  content_body : string
}.

(** What [getEmailContent] computes from the message; [None] when it
    throws: there is no [payload], or no [headers]. *)
Definition extract_content (email : Email) : option EmailContent :=
  match payload email with
  | None => None
  | Some pl =>
      match headers pl with
      | None => None
      | Some hs =>
          let body :=
            if truthy (body_data pl)
            then base64_toString env (default "" (body_data pl))
            else match parts pl with
                 | Some ps => first_plain_part ps
                 | None => ""
                 end in
          Some {| content_from := header_value "From" hs;
                  content_subject := header_value "Subject" hs;
                  content_body := body |}
      end
  end.

(** [getEmailContent(email)]. *)
Definition getEmailContent (email : Email) : M EmailContent :=
  record_call (GetEmailContent (email_id email)) ;;
  match extract_content email with
  | Some c => ret c
  | None => throw TypeError
  end.

(** ** [services/openaiService.ts] *)

(** The value [analyzeEmail] resolves to. *)
Record Analysis : Type := {
  an_action : string;
  an_confidence : JSNumber;
  an_reasoning : string
}.

(** The answer of the [catch] of [analyzeEmail]. *)
Definition analysis_error : Analysis :=
  {| an_action := "ignore";
     an_confidence := zero;
     an_reasoning := "Error analyzing email" |}.

(** [analyzeEmail(userId, emailContent)].  The missing key is thrown
    before the [try]; whatever throws inside it, the conversion of the
    confidence included, gives the ['Error analyzing email'] answer. *)
Definition analyzeEmail (user emailContent : string) : M Analysis :=
  record_call (AnalyzeEmail user emailContent) ;;
  let* credentials := getUserCredentials user in
  if negb (truthy (credentials ≫= openaiApiKey))
  then throw (Error "OpenAI API key not configured")
  else
    fun w =>
      match chat_json env (calls w) with
      | Some result =>
          match clampConfidence (raw_confidence result) with
          | Some confidence =>
              (w, Returns {| an_action := or_default (raw_action result) "ignore";
                             an_confidence := confidence;
                             an_reasoning := or_default (raw_reasoning result)
                                               "No reasoning provided" |})
          | None => (w, Returns analysis_error)
          end
      | None => (w, Returns analysis_error)
      end.

Definition fallback_reply : string :=
  "Thank you for your interest. Please find my resume attached.".

(** [generateReply(userId, emailContent, fromEmail)].  The missing key is
    thrown before the [try]; a request that rejects, or an empty content,
    gives the fallback text. *)
Definition generateReply (user emailContent from : string) : M string :=
  record_call (GenerateReply user emailContent from) ;;
  let* credentials := getUserCredentials user in
  if negb (truthy (credentials ≫= openaiApiKey))
  then throw (Error "OpenAI API key not configured")
  else
    let personal := or_default (credentials ≫= personalDescription) "a job seeker" in
    let resume := or_default (credentials ≫= resumeLink) "" in
    fun w =>
      match chat_text env (calls w) personal resume with
      | Some content => (w, Returns (or_default content fallback_reply))
      | None => (w, Returns fallback_reply)
      end.

(** ** [services/emailProcessor.ts]: the pipeline *)

(** Line 123: [subject.startsWith('Re:') ? subject : `Re: ${subject}`]. *)
Definition replySubject (subj : string) : string :=
  if String.prefix "Re:" subj then subj else "Re: " +:+ subj.

(** The [try] block of [handleReplyAction]. *)
Definition reply_attempt (user : string) (email : Email)
    (from body : string) : M unit :=
  let* replyText := generateReply user body from in
  let* content := getEmailContent email in
  let subj := replySubject (content_subject content) in
  sendEmail user from subj replyText ;;
  insertEmailLog {| userId := user;
                    emailId := email_id email;
                    fromEmail := from;
                    subject := Some subj;
                    action := "reply";
                    responseText := Some replyText;
                    status := "sent" |} ;;
  ret tt.

(** [handleReplyAction(userId, email, logId, fromEmail, body)]. *)
Definition handleReplyAction (user : string) (email : Email) (logId : nat)
    (from body : string) : M unit :=
  try_catch (reply_attempt user email from body)
    (fun _ =>
       insertEmailLog {| userId := user;
                         emailId := email_id email;
                         fromEmail := from;
                         subject := Some "Reply failed";
                         action := "reply";
                         responseText := None;
                         status := "failed" |} ;;
       ret tt).

(** The [try] block of [handleStarAction]. *)
Definition star_attempt (user : string) (email : Email) : M unit :=
  starEmail user (email_id email) ;;
  insertEmailLog {| userId := user;
                    emailId := email_id email;
                    fromEmail := "";
                    subject := Some "Email starred";
                    action := "star";
                    responseText := None;
                    status := "sent" |} ;;
  ret tt.

(** [handleStarAction(userId, email, logId)]. *)
Definition handleStarAction (user : string) (email : Email) (logId : nat)
  : M unit :=
  try_catch (star_attempt user email)
    (fun _ =>
       insertEmailLog {| userId := user;
                         emailId := email_id email;
                         fromEmail := "";
                         subject := Some "Star failed";
                         action := "star";
                         responseText := None;
                         status := "failed" |} ;;
       ret tt).

(** [logs.some(log => log.emailId === email.id)]. *)
Definition alreadyProcessed (logs : list EmailLog) (email : Email) : bool :=
  existsb (fun log : EmailLog => String.eqb (emailId log) (email_id email)) logs.

(** The words of the activity's description. *)
Definition action_words (a : string) : string :=
  if String.eqb a "reply" then "replied to"
  else if String.eqb a "star" then "starred"
  else "processed".

(** The [switch] of [processEmail]: [reply], [star], and nothing for
    [ignore] or any other string. *)
Definition dispatch (user : string) (email : Email) (logId : nat)
    (from body act : string) : M unit :=
  if String.eqb act "reply"
  then handleReplyAction user email logId from body
  else if String.eqb act "star"
  then handleStarAction user email logId
  else ret tt.

(** The activity [processEmail] records. *)
Definition activity_of (user : string) (content : EmailContent)
    (analysis : Analysis) : InsertActivity :=
  {| act_userId := user;
     act_type := "email_" +:+ an_action analysis;
     description := "Email " +:+ action_words (an_action analysis)
                    +:+ ": " +:+ content_subject content;
     metadata := {| meta_from := content_from content;
                    meta_subject := content_subject content;
                    meta_action := an_action analysis;
                    meta_confidence := JSNum (an_confidence analysis) |} |}.

(** The [pending] row of [processEmail], lines 70 to 77. *)
Definition pending (user : string) (email : Email) (content : EmailContent)
    (act : string) : InsertEmailLog :=
  {| userId := user;
     emailId := email_id email;
     fromEmail := content_from content;
     subject := Some (content_subject content);
     action := act;
     responseText := None;
     status := "pending" |}.

(** The [try] block of [processEmail]. *)
Definition processEmail_body (user : string) (email : Email) : M unit :=
  let* logs := getUserEmailLogs user None in
  if alreadyProcessed logs email then ret tt
  else
    let* content := getEmailContent email in
    let* analysis := analyzeEmail user (content_body content) in
    let* emailLog :=
      insertEmailLog (pending user email content (an_action analysis)) in
    dispatch user email (id emailLog) (content_from content)
             (content_body content) (an_action analysis) ;;
    insertActivity (activity_of user content analysis) ;;
    ret tt.

(** [processEmail(userId, email)]. *)
Definition processEmail (user : string) (email : Email) : M unit :=
  try_catch (processEmail_body user email) (fun _ => ret tt).

(** [for (const email of emails) await this.processEmail(userId, email)]. *)
Fixpoint forEachEmail (user : string) (emails : list Email) : M unit :=
  match emails with
  | [] => ret tt
  | email :: rest => processEmail user email ;; forEachEmail user rest
  end.

(** The [try] block of [processNewEmails]. *)
Definition processNewEmails_body (user : string) : M unit :=
  let* credentials := getUserCredentials user in
  if negb (default false (credentials ≫= agentActive)) then ret tt
  else
    let query := "is:unread newer_than:1d" in
    let* emails := getEmails user query 10 in
    forEachEmail user emails.

(** [processNewEmails(userId)]. *)
Definition processNewEmails (user : string) : M unit :=
  try_catch (processNewEmails_body user) (fun _ => ret tt).

End Services.

(** ** [services/emailProcessor.ts]: the scheduler *)

(** The state of the scheduler: the [monitoringIntervals] map of the
    [EmailProcessor] (user to the handle [setInterval] gave), and the
    interval timers that are running in the runtime, each with the user
    whose mailbox its callback polls.  Handles are never used twice. *)
Record Scheduler : Type := {
  monitoringIntervals : gmap string nat;
  intervals : gmap nat string;
  nextHandle : nat
}.

(** [new EmailProcessor()]: nothing is registered, nothing runs. *)
Definition initial : Scheduler :=
  {| monitoringIntervals := ∅; intervals := ∅; nextHandle := 0 |}.

(** [setInterval(callback, 5 * 60 * 1000)], the callback polling [user]. *)
Definition setInterval (user : string) (s : Scheduler) : nat * Scheduler :=
  (nextHandle s,
   {| monitoringIntervals := monitoringIntervals s;
      intervals := <[nextHandle s := user]> (intervals s);
      nextHandle := S (nextHandle s) |}).

(** [clearInterval(interval)]. *)
Definition clearInterval (h : nat) (s : Scheduler) : Scheduler :=
  {| monitoringIntervals := monitoringIntervals s;
     intervals := delete h (intervals s);
     nextHandle := nextHandle s |}.

(** [this.monitoringIntervals.set(userId, interval)]. *)
Definition Map_set (user : string) (h : nat) (s : Scheduler) : Scheduler :=
  {| monitoringIntervals := <[user := h]> (monitoringIntervals s);
     intervals := intervals s;
     nextHandle := nextHandle s |}.

(** [this.monitoringIntervals.delete(userId)]. *)
Definition Map_delete (user : string) (s : Scheduler) : Scheduler :=
  {| monitoringIntervals := delete user (monitoringIntervals s);
     intervals := intervals s;
     nextHandle := nextHandle s |}.

(** [stopMonitoring(userId)].  A handle that is registered is an object,
    so [if (interval)] asks whether the user is registered. *)
Definition stopMonitoring (user : string) (s : Scheduler) : Scheduler :=
  match monitoringIntervals s !! user with
  | Some interval => Map_delete user (clearInterval interval s)
  | None => s
  end.

(** [startMonitoring], up to its [await]: stop, [setInterval], [set]. *)
Definition startMonitoring_sync (user : string) (s : Scheduler) : Scheduler :=
  let s1 := stopMonitoring user s in
  let '(interval, s2) := setInterval user s1 in
  Map_set user interval s2.

(** The scheduler together with the world its pipeline runs act on. *)
Definition System : Type := Scheduler * World.

(** [startMonitoring(userId)]: the synchronous part, then the first run of
    the pipeline. *)
Definition startMonitoring (env : Env) (user : string) (sys : System)
  : System * Outcome unit :=
  let s' := startMonitoring_sync user (fst sys) in
  let '(w', r) := processNewEmails env user (snd sys) in
  ((s', w'), r).

(** The callback of the timer: a run of the pipeline, errors logged. *)
Definition interval_callback (env : Env) (user : string) : M unit :=
  try_catch (processNewEmails env user) (fun _ => ret tt).

(** What can happen to the system: a control call, or a timer that runs
    fires.  The scheduler's state changes in the synchronous part of a
    start only, so the run of the pipeline a start awaits is taken with
    it as one step. *)
Inductive step (env : Env) : System -> System -> Prop :=
| step_start user sys :
    step env sys (fst (startMonitoring env user sys))
| step_stop user s w :
    step env (s, w) (stopMonitoring user s, w)
| step_tick h user s w :
    intervals s !! h = Some user ->
    step env (s, w) (s, world_after (interval_callback env user) w).

(** The systems the process can be in, from its start with any tables. *)
Inductive reachable (env : Env) : System -> Prop :=
| reachable_initial w : reachable env (initial, w)
| reachable_step sys sys' :
    reachable env sys -> step env sys sys' -> reachable env sys'.

(** The timer [h] runs for [user]. *)
Definition runs_for (s : Scheduler) (user : string) (h : nat) : Prop :=
  intervals s !! h = Some user.

(** No two timers run for the user. *)
Definition at_most_one_task (s : Scheduler) (user : string) : Prop :=
  forall h1 h2, runs_for s user h1 -> runs_for s user h2 -> h1 = h2.

(** One timer runs for the user, and it is the registered one. *)
Definition exactly_one_task (s : Scheduler) (user : string) : Prop :=
  exists h, runs_for s user h /\ monitoringIntervals s !! user = Some h /\
            forall h', runs_for s user h' -> h' = h.

(** No timer runs for the user. *)
Definition no_task (s : Scheduler) (user : string) : Prop :=
  forall h, ~ runs_for s user h.

(** The map and the runtime agree: the timers that run are the registered
    ones, and the handles to come are fresh. *)
Definition consistent (s : Scheduler) : Prop :=
  (forall h user, intervals s !! h = Some user <->
                  monitoringIntervals s !! user = Some h) /\
  (forall h user, intervals s !! h = Some user -> h < nextHandle s).

(** ** What the theorems speak of *)

(** A prefix of a string. *)
Definition begins_with (p s : string) : Prop := exists t, s = p +:+ t.

(** The rows were inserted one after the other from instant [t] on, each
    at a later instant than the one before, and all before [now]. *)
Fixpoint chronological_from (t : nat) (l : list EmailLog) (now : nat) : bool :=
  match l with
  | [] => t <=? now
  | r :: l' => (t <=? createdAt r) && chronological_from (S (createdAt r)) l' now
  end%nat.

(** The log of the world was written by [insertEmailLog] as the clock went. *)
Definition chronological (w : World) : Prop :=
  chronological_from 0 (emailLogs w) (clock w) = true.

(** The rows of the user in the log, the latest first. *)
Definition rows_of (user : string) (w : World) : list EmailLog :=
  rev (List.filter (fun l : EmailLog => String.eqb (userId l) user) (emailLogs w)).

(** The service calls to the mail client. *)
Definition mail_calls (w : World) : list Call :=
  List.filter is_mail_call (calls w).

(** [processEmail] gets as far as the dispatch on this message, with this
    analysis: the message is not found in the log, its content is
    extracted, [analyzeEmail] resolves, and the insert of the [pending]
    row resolves. *)
Definition dispatches (env : Env) (user : string) (email : Email)
    (w : World) (content : EmailContent) (analysis : Analysis) : Prop :=
  (exists logs, outcome_of (getUserEmailLogs user None) w = Returns logs /\
                alreadyProcessed logs email = false) /\
  extract_content env email = Some content /\
  outcome_of (analyzeEmail env user (content_body content))
             (world_after (record_call (GetEmailContent (email_id email))) w)
  = Returns analysis /\
  exists emailLog,
    outcome_of (insertEmailLog (pending user email content (an_action analysis)))
               (world_after (analyzeEmail env user (content_body content))
                  (world_after (record_call (GetEmailContent (email_id email))) w))
    = Returns emailLog.

(** The [pending] row [processEmail] writes before the dispatch. *)
Definition pending_row (user : string) (email : Email)
    (content : EmailContent) (act : string) (w : World) : EmailLog :=
  {| id := S (length (emailLogs w));
     log_fields := pending user email content act;
     createdAt := clock w |}.

(** The world in which [processEmail] dispatches: the content has been
    extracted, the message analysed and the [pending] row written. *)
Definition before_dispatch (env : Env) (user : string) (email : Email)
    (content : EmailContent) (analysis : Analysis) (w : World) : World :=
  world_after
    (insertEmailLog (pending_row user email content (an_action analysis) w))
    (world_after (analyzeEmail env user (content_body content))
       (world_after (record_call (GetEmailContent (email_id email))) w)).

(** A terminal row of the message: of the user, for the message and the
    action, [sent] or [failed]. *)
Definition terminal_row (user : string) (email : Email) (act : string)
    (r : EmailLog) : Prop :=
  userId r = user /\ emailId r = email_id email /\ action r = act /\
  (status r = "sent" \/ status r = "failed").

(** The fields of the [failed] row of the Reply Handler. *)
Definition reply_failed (user : string) (email : Email) (from : string)
  : InsertEmailLog :=
  {| userId := user;
     emailId := email_id email;
     fromEmail := from;
     subject := Some "Reply failed";
     action := "reply";
     responseText := None;
     status := "failed" |}.

(** The fields of the [sent] row of the Reply Handler. *)
Definition reply_sent (user : string) (email : Email) (from subj text : string)
  : InsertEmailLog :=
  {| userId := user;
     emailId := email_id email;
     fromEmail := from;
     subject := Some subj;
     action := "reply";
     responseText := Some text;
     status := "sent" |}.


(** The row of an activity, as [insertActivity] stores it in the world. *)
Definition activity_row (activity : InsertActivity) (w : World) : Activity :=
  {| act_id := S (length (activities w));
     act_fields := as_stored activity;
     act_createdAt := clock w |}.


(** ** Scenarios *)

(** A user with the agent switched on, a Gmail token and a classifier
    key. *)
Definition alice : UserCredentials :=
  {| cred_userId := "alice";
     openaiApiKey := Some "sk-alice";
     gmailAccessToken := Some "ya29.alice";
     gmailRefreshToken := Some "1//alice";
     resumeLink := Some "https://example.org/alice.pdf";
     personalDescription := None;
     agentActive := Some true |}.

(** Alice is known, nothing has been logged. *)
Definition fresh_world : World :=
  {| userCredentials := [alice];
     emailLogs := [];
     activities := [];
     clock := 0;
     calls := [] |}.

(** A message with the two headers and no body. *)
Definition message (mid from subj : string) : Email :=
  {| email_id := mid;
     payload := Some {| headers := Some [ {| name := "From"; value := from |};
                                          {| name := "Subject"; value := subj |} ];
                        body_data := None;
                        parts := None |} |}.

(** The JSON answer [reply] with the confidence given. *)
Definition answer (raw : JSValue) : RawAnalysis :=
  {| raw_action := Some "reply";
     raw_confidence := raw;
     raw_reasoning := Some "asks for a resume" |}.

(** An environment whose answers do not depend on the history, but for
    the inbox. *)
Definition env_of (inbox : list Call -> option (list Email)) (send : bool)
    (json : option RawAnalysis) (text : option (option string)) : Env :=
  {| messages_list := inbox;
     messages_send := fun _ => send;
     messages_modify := fun _ => true;
     chat_json := fun _ => json;
     chat_text := fun _ _ _ => text;
     base64_toString := fun s => s |}.

Definition resume_reply : string := "Please find my resume here.".

(** The classifier answers [reply] with the confidence given; the inbox
    is empty; every request resolves. *)
Definition env_confidence (raw : JSValue) : Env :=
  env_of (fun _ => Some []) true (Some (answer raw)) (Some (Some resume_reply)).


(** The same, with the request of [generateReply] rejecting instead. *)
Definition env_generation_rejected : Env :=
  env_of (fun _ => Some []) true (Some (answer (JSNum (Finite (9 # 10))))) None.

(** The classifier's request of [analyzeEmail] rejects. *)
Definition env_classifier_down : Env :=
  env_of (fun _ => Some []) true None (Some (Some resume_reply)).

(** A message asking for a resume, and what is extracted from it. *)
Definition opening : Email := message "m0" "hr@corp.example" "Opening".

Definition opening_content : EmailContent :=
  {| content_from := "hr@corp.example";
     content_subject := "Opening";
     content_body := "" |}.

Definition opening_analysis : Analysis :=
  {| an_action := "reply";
     an_confidence := Finite (9 # 10);
     an_reasoning := "asks for a resume" |}.

(** A reply from a thread: its subject begins with [Re:] and no space. *)
Definition threaded : Email := message "m1" "hr@corp.example" "Re:hello".

(** Twenty-five other messages, [other 0] to [other 24]. *)
Definition other (n : nat) : Email :=
  message ("x" +:+ String (Ascii.ascii_of_nat (97 + n)) "")
          "news@shop.example" "Offer".

(** The number of runs of the pipeline that reached the mail client. *)
Definition runs (history : list Call) : nat :=
  length (List.filter (fun c => match c with GetEmails _ _ _ => true | _ => false end)
                      history).

(** A day of Alice's inbox.  [opening] stays unread: the first run finds
    it alone; the next three find the 25 others, ten at a time; the fifth
    finds [opening] again, all the others having been read. *)
Definition inbox (history : list Call) : option (list Email) :=
  Some match runs history with
       | 1 => [opening]
       | 2 => map other (seq 0 10)
       | 3 => map other (seq 10 10)
       | 4 => map other (seq 20 5)
       | 5 => [opening]
       | _ => []
       end.

Definition env_day : Env :=
  env_of inbox true (Some (answer (JSNum (Finite (9 # 10)))))
         (Some (Some resume_reply)).

(** The same day, with the classifier out of reach while the first
    message is analysed and back afterwards. *)
Definition analyses (history : list Call) : nat :=
  length (List.filter (fun c => match c with AnalyzeEmail _ _ => true | _ => false end)
                      history).

Definition env_recovering : Env :=
  {| messages_list := inbox;
     messages_send := fun _ => true;
     messages_modify := fun _ => true;
     chat_json := fun history =>
                    if (analyses history =? 1)%nat then None
                    else Some (answer (JSNum (Finite (9 # 10))));
     chat_text := fun _ _ _ => Some (Some resume_reply);
     base64_toString := fun s => s |}.

(** The world after [n] runs of the pipeline for Alice, from nothing. *)
Fixpoint after_runs (env : Env) (n : nat) : World :=
  match n with
  | O => fresh_world
  | S n' => world_after (processNewEmails env "alice") (after_runs env n')
  end.

(** The rows of a message in a log, and the sends to an address. *)
Definition rows_for (mid : string) (logs : list EmailLog) : list EmailLog :=
  List.filter (fun r : EmailLog => String.eqb (emailId r) mid) logs.

Definition sends_to (to : string) (history : list Call) : list Call :=
  List.filter (fun c => match c with
                        | SendEmail _ t _ _ => String.eqb t to
                        | _ => false
                        end) history.

(** ** [storage.ts]: the other queries *)

(** [ORDER BY created_at DESC] on activities, as on the log. *)
Fixpoint insert_desc_activity (r : Activity) (l : list Activity)
  : list Activity :=
  match l with
  | [] => [r]
  | x :: l' =>
      if (act_createdAt x <? act_createdAt r)%nat then r :: l
      else x :: insert_desc_activity r l'
  end.

(** [getUserActivities(userId, limit = 10)]: the activities of the user,
    latest first, at most [limit] of them. *)
Definition getUserActivities (user : string) (limit : option nat)
  : M (list Activity) :=
  fun w =>
    let limit := default 10 limit in
    (w, Returns (take limit
                   (fold_right insert_desc_activity []
                      (List.filter (fun a : Activity => String.eqb (act_userId a) user)
                                   (activities w))))).

(** What [getUserStats] resolves to. *)
Record Stats : Type := {
  emailsProcessed : nat;
  autoReplies : nat;
  starredEmails : nat;
  successRate : JSNumber
}.

(** The rows of a list with the given action, with the given status. *)
Definition with_action (a : string) (logs : list EmailLog) : list EmailLog :=
  List.filter (fun log : EmailLog => String.eqb (action log) a) logs.

Definition with_status (st : string) (logs : list EmailLog) : list EmailLog :=
  List.filter (fun log : EmailLog => String.eqb (status log) st) logs.

(** [getUserStats(userId)]: all the rows of the user are read, without
    order and without limit.  [percent s n] stands for
    [Math.round((s / n) * 100)] as the engine computes it on doubles
    ([Math_round_percent]); it is asked only when there is a row. *)
Definition getUserStats (percent : nat -> nat -> JSNumber) (user : string)
  : M Stats :=
  fun w =>
    let logs := List.filter (fun l : EmailLog => String.eqb (userId l) user)
                            (emailLogs w) in
    let processed := length logs in
    let successfulEmails := length (with_status "sent" logs) in
    (w, Returns {| emailsProcessed := processed;
                   autoReplies := length (with_action "reply" logs);
                   starredEmails := length (with_action "star" logs);
                   successRate := if (0 <? processed)%nat
                                  then percent successfulEmails processed
                                  else zero |}).

(** Later rows first. *)
Definition latest_first (logs : list EmailLog) : Prop :=
  StronglySorted (fun a b : EmailLog => createdAt b <= createdAt a) logs.

Definition latest_first_activities (acts : list Activity) : Prop :=
  StronglySorted (fun a b : Activity => act_createdAt b <= act_createdAt a) acts.

(** The rows of the user in a table. *)
Definition logs_of (user : string) (logs : list EmailLog) : list EmailLog :=
  List.filter (fun l : EmailLog => String.eqb (userId l) user) logs.

Definition activities_of (user : string) (acts : list Activity)
  : list Activity :=
  List.filter (fun a : Activity => String.eqb (act_userId a) user) acts.

(** ** Further scenarios *)

(** The Gmail API rejects every request. *)
Definition env_gmail_down : Env :=
  env_of (fun _ => None) false (Some (answer (JSNum (Finite (9 # 10)))))
         (Some (Some resume_reply)).

(** The classifier answers [star]. *)
Definition env_star : Env :=
  env_of (fun _ => Some []) true
         (Some {| raw_action := Some "star";
                  raw_confidence := JSNum (Finite (8 # 10));
                  raw_reasoning := Some "selected for the next round" |})
         (Some (Some resume_reply)).

Definition star_analysis : Analysis :=
  {| an_action := "star";
     an_confidence := Finite (8 # 10);
     an_reasoning := "selected for the next round" |}.

Definition ignore_analysis : Analysis :=
  {| an_action := "ignore";
     an_confidence := zero;
     an_reasoning := "Error analyzing email" |}.



(** A message whose subject begins with the character U+0000. *)
Definition nul_subject : Email :=
  message "m3" "hr@corp.example" (String Ascii.zero "Opening").

Definition nul_subject_content : EmailContent :=
  {| content_from := "hr@corp.example";
     content_subject := String Ascii.zero "Opening";
     content_body := "" |}.

(** A message without a payload, and one in two parts, HTML first. *)
Definition broken : Email := {| email_id := "broken"; payload := None |}.

Definition two_parts : Email :=
  {| email_id := "m2";
     payload :=
       Some {| headers := Some [ {| name := "From"; value := "hr@corp.example" |} ];
               body_data := None;
               parts := Some [ {| mimeType := "text/html";
                                  part_data := Some "PGI+SGk8L2I+" |};
                               {| mimeType := "text/plain";
                                  part_data := Some "SGk=" |} ] |} |}.


(** * Properties *)

(** ** The scheduler *)

Lemma consistent_initial : consistent initial.
Proof.
  split; intros h user; cbn; rewrite ?lookup_empty; [split|]; discriminate.
Qed.

Lemma consistent_stopMonitoring s user :
  consistent s -> consistent (stopMonitoring user s).
Proof.
  intros [Hbij Hfresh]. unfold stopMonitoring.
  destruct (monitoringIntervals s !! user) as [h0|] eqn:Hreg; [|by split].
  split; cbn.
  - intros h u. rewrite lookup_delete, (lookup_delete (monitoringIntervals s)).
    pose proof (proj2 (Hbij _ _) Hreg) as Hrun.
    repeat case_decide; subst; [| | |apply Hbij];
      (split; intros Hx; try discriminate; apply Hbij in Hx; congruence).
  - intros h u. rewrite lookup_delete. case_decide; [discriminate|].
    apply Hfresh.
Qed.

Lemma no_task_stopMonitoring s user :
  consistent s -> no_task (stopMonitoring user s) user.
Proof.
  intros [Hbij _] h. unfold runs_for, stopMonitoring.
  destruct (monitoringIntervals s !! user) as [h0|] eqn:Hreg; cbn.
  - rewrite lookup_delete. case_decide; [discriminate|].
    intros Hh. apply Hbij in Hh. congruence.
  - intros Hh. apply Hbij in Hh. congruence.
Qed.

Lemma unregistered_stopMonitoring s user :
  monitoringIntervals (stopMonitoring user s) !! user = None.
Proof.
  unfold stopMonitoring.
  destruct (monitoringIntervals s !! user) eqn:Hreg; cbn; [|done].
  apply lookup_delete_eq.
Qed.

(** A timer set for a user that has none, and registered: the map and the
    runtime agree again. *)
Lemma consistent_register s user :
  consistent s -> no_task s user ->
  consistent (Map_set user (nextHandle s) (snd (setInterval user s))).
Proof.
  intros [Hbij Hfresh] Hnone. split; cbn.
  - intros h u. rewrite lookup_insert, (lookup_insert (monitoringIntervals s)).
    repeat case_decide; subst.
    + split; congruence.
    + split; [congruence|]. intros Hu. apply Hbij, Hfresh in Hu. lia.
    + split; [|congruence]. intros Hh. by apply Hnone in Hh.
    + apply Hbij.
  - intros h u. rewrite lookup_insert. case_decide; [lia|].
    intros Hh. apply Hfresh in Hh. lia.
Qed.

Lemma consistent_startMonitoring_sync s user :
  consistent s -> consistent (startMonitoring_sync user s).
Proof.
  intros Hs. unfold startMonitoring_sync.
  apply (consistent_register (stopMonitoring user s) user).
  - by apply consistent_stopMonitoring.
  - by apply no_task_stopMonitoring.
Qed.

Lemma startMonitoring_scheduler env user sys :
  fst (fst (startMonitoring env user sys)) = startMonitoring_sync user (fst sys).
Proof.
  unfold startMonitoring. by destruct (processNewEmails env user (snd sys)).
Qed.

Lemma reachable_consistent env sys : reachable env sys -> consistent (fst sys).
Proof.
  induction 1 as [w|sys sys' _ IH Hstep]; [apply consistent_initial|].
  destruct Hstep; cbn in *.
  - rewrite startMonitoring_scheduler. by apply consistent_startMonitoring_sync.
  - by apply consistent_stopMonitoring.
  - done.
Qed.

Lemma consistent_at_most_one s user : consistent s -> at_most_one_task s user.
Proof.
  intros [Hbij _] h1 h2 H1 H2. apply Hbij in H1, H2. congruence.
Qed.

Lemma exactly_one_startMonitoring_sync s user :
  consistent s -> exactly_one_task (startMonitoring_sync user s) user.
Proof.
  intros Hs.
  destruct (consistent_startMonitoring_sync s user Hs) as [Hbij _].
  exists (nextHandle (stopMonitoring user s)).
  assert (Hreg : monitoringIntervals (startMonitoring_sync user s) !! user
                 = Some (nextHandle (stopMonitoring user s)))
    by apply lookup_insert_eq.
  split; [by apply Hbij|]. split; [done|].
  intros h' Hh'. apply Hbij in Hh'. congruence.
Qed.

(** C6. A start while a task of the user is active first cancels that
    task and removes its registration (after the [stopMonitoring] of the
    start no timer runs for the user and the user is not registered, and
    the handle that was registered no longer runs when the start is
    done), then registers the new one; so at each instant (before the
    start, after its stop, after its [setInterval], after its [set]) at
    most one timer runs for any user, and after one start, and after two
    in succession, exactly one runs for the user. *)
Theorem startMonitoring_single_task env sys user :
  reachable env sys ->
  let s := fst sys in
  let s1 := stopMonitoring user s in
  let s2 := snd (setInterval user s1) in
  let sys1 := fst (startMonitoring env user sys) in
  let sys2 := fst (startMonitoring env user sys1) in
  (no_task s1 user /\ monitoringIntervals s1 !! user = None) /\
  (forall h, monitoringIntervals s !! user = Some h ->
             intervals s1 !! h = None /\ intervals (fst sys1) !! h = None) /\
  fst sys1 = Map_set user (fst (setInterval user s1)) s2 /\
  (forall u, at_most_one_task s u /\ at_most_one_task s1 u /\
             at_most_one_task s2 u /\ at_most_one_task (fst sys1) u /\
             at_most_one_task (fst sys2) u) /\
  exactly_one_task (fst sys1) user /\
  exactly_one_task (fst sys2) user.
Proof.
  intros Hreach s s1 s2 sys1 sys2.
  pose proof (reachable_consistent env sys Hreach) as Hs. fold s in Hs.
  assert (Hs1 : consistent s1) by by apply consistent_stopMonitoring.
  assert (Hnone : no_task s1 user) by by apply no_task_stopMonitoring.
  assert (Hsys1 : fst sys1 = startMonitoring_sync user s)
    by apply startMonitoring_scheduler.
  assert (Hsys2 : fst sys2 = startMonitoring_sync user (fst sys1))
    by apply startMonitoring_scheduler.
  assert (Hc1 : consistent (fst sys1))
    by (rewrite Hsys1; by apply consistent_startMonitoring_sync).
  assert (Hc2 : consistent (fst sys2))
    by (rewrite Hsys2; by apply consistent_startMonitoring_sync).
  split; [split; [done | apply unregistered_stopMonitoring]|].
  split.
  { intros h Hreg.
    assert (Hh1 : intervals s1 !! h = None).
    { unfold s1, stopMonitoring. rewrite Hreg. cbn. apply lookup_delete_eq. }
    split; [done|]. rewrite Hsys1. unfold startMonitoring_sync. cbn.
    fold s1. rewrite lookup_insert_ne; [done|].
    intros <-. destruct Hs as [Hbij Hfresh].
    apply Hbij, Hfresh in Hreg.
    assert (nextHandle s1 = nextHandle s); [|lia].
    unfold s1, stopMonitoring. by destruct (monitoringIntervals s !! user). }
  split; [by rewrite Hsys1|].
  split.
  { intros u. repeat split; try by apply consistent_at_most_one.
    intros h1 h2. unfold runs_for, s2. cbn. rewrite !lookup_insert.
    destruct Hs1 as [Hbij Hfresh].
    repeat case_decide; subst; try done; intros Ha Hb; simplify_eq;
      try (by exfalso; eapply Hnone; eauto).
    apply Hbij in Ha, Hb. congruence. }
  split.
  - rewrite Hsys1. by apply exactly_one_startMonitoring_sync.
  - rewrite Hsys2. by apply exactly_one_startMonitoring_sync.
Qed.

Lemma startMonitoring_single_task_witness :
  let env := env_confidence JSNull in
  let sys := fst (startMonitoring env "alice" (initial, fresh_world)) in
  reachable env sys /\
  exactly_one_task
    (fst (fst (startMonitoring env "alice"
                 (fst (startMonitoring env "alice" sys))))) "alice".
Proof.
  intros env sys.
  assert (Hreach : reachable env sys).
  { apply (reachable_step env (initial, fresh_world)).
    - apply reachable_initial.
    - apply step_start. }
  split; [exact Hreach|].
  apply (startMonitoring_single_task env sys "alice" Hreach).
Defined.

(** C9. [stopMonitoring] is a total function of the scheduler's state: it
    has no error to raise.  With no task registered for the user it gives
    the state back as it was; with one registered it clears that timer
    and deletes the registration and nothing else, and a second stop then
    changes nothing. *)
Theorem stopMonitoring_idempotent s user :
  (monitoringIntervals s !! user = None -> stopMonitoring user s = s) /\
  (forall h, monitoringIntervals s !! user = Some h ->
     let s' := stopMonitoring user s in
     intervals s' = delete h (intervals s) /\
     monitoringIntervals s' = delete user (monitoringIntervals s) /\
     nextHandle s' = nextHandle s /\
     intervals s' !! h = None /\
     monitoringIntervals s' !! user = None /\
     stopMonitoring user s' = s').
Proof.
  split.
  - intros Hreg. unfold stopMonitoring. by rewrite Hreg.
  - intros h Hreg s'.
    assert (Hs' : s' = Map_delete user (clearInterval h s))
      by (unfold s', stopMonitoring; by rewrite Hreg).
    assert (Hgone : monitoringIntervals s' !! user = None)
      by (rewrite Hs'; apply lookup_delete_eq).
    rewrite Hs' at 1 2 3 4. cbn.
    repeat split; try done.
    + apply lookup_delete_eq.
    + unfold stopMonitoring. by rewrite Hgone.
Qed.

Lemma stopMonitoring_idempotent_witness :
  stopMonitoring "alice" initial = initial /\
  let s := startMonitoring_sync "alice" initial in
  intervals (stopMonitoring "alice" s) !! 0 = None /\
  stopMonitoring "alice" (stopMonitoring "alice" s) = stopMonitoring "alice" s.
Proof.
  split.
  - apply (proj1 (stopMonitoring_idempotent initial "alice")). reflexivity.
  - intros s.
    destruct (proj2 (stopMonitoring_idempotent s "alice") 0)
      as (_ & _ & _ & Hgone & _ & Hagain).
    + reflexivity.
    + split; [exact Hgone | exact Hagain].
Defined.

(** ** The classifier client *)

Example StringToNumber_words : StringToNumber "high" = NaN.
Proof. reflexivity. Qed.

Example StringToNumber_decimal : StringToNumber " 0.75 " = Finite (3 # 4).
Proof. vm_compute. reflexivity. Qed.

Example StringToNumber_hex : StringToNumber "0x1F" = Finite 31.
Proof. vm_compute. reflexivity. Qed.

Example StringToNumber_exponent :
  map StringToNumber ["1e2"; "1e"; "+.5"; "."; "-Infinity"; ""]
  = [Finite 100; NaN; Finite (1 # 2); NaN; NegInfinity; Finite 0].
Proof. vm_compute. reflexivity. Qed.

(** A literal is rounded to a double: below the smallest it is 0, next
    to 1 it is 1, beyond the largest it is an infinity. *)
Example StringToNumber_rounds :
  map StringToNumber ["1e-400"; "0.99999999999999999"; "1e400";
                      "9007199254740993"]
  = [Finite 0; Finite 1; PosInfinity; Finite 9007199254740992].
Proof. vm_compute. reflexivity. Qed.

Example Math_round_percent_half :
  map (fun p => Math_round_percent p.1 p.2) [(1, 3); (2, 3); (1, 8); (29, 200)]
  = [Finite 33; Finite 67; Finite 13; Finite 14].
Proof. vm_compute. reflexivity. Qed.

(** Arrays and objects: the empty array is 0, an array of one element is
    what its element is, an object is [NaN], and an object with a
    property [toString] cannot be converted. *)
Example ToNumber_objects :
  map ToNumber [JSArray []; JSArray [JSNum (Finite (1 # 2))];
                JSArray [JSString "high"]; JSArray [JSNull; JSNull];
                JSObject []; JSObject ["toString"];
                JSArray [JSObject ["toString"]]]
  = [Some zero; Some (Finite (1 # 2)); Some NaN; Some NaN; Some NaN; None; None].
Proof. vm_compute. reflexivity. Qed.

Lemma Math_min_one n :
  n <> NaN ->
  match Math_min one n with
  | Finite q => (q <= 1)%Q /\ (n = Finite q \/ q = 1%Q)
  | NegInfinity => n = NegInfinity
  | _ => False
  end.
Proof.
  destruct n as [| |q|]; cbn; intros Hn; try done.
  - destruct (Qle_bool 1 q) eqn:Hle.
    + split; [apply Qle_refl | by right].
    + split; [|by left].
      apply Qlt_le_weak, Qnot_le_lt. intros Hq.
      apply Qle_bool_iff in Hq. congruence.
  - split; [apply Qle_refl | by right].
Qed.

Lemma Math_max_zero n :
  n <> NaN -> n <> PosInfinity ->
  (forall q, n = Finite q -> (q <= 1)%Q) ->
  in_unit_interval (Math_max zero n).
Proof.
  destruct n as [| |q|]; cbn; try done.
  intros _ _ Hq. specialize (Hq q eq_refl).
  destruct (Qle_bool 0 q) eqn:Hle; cbn.
  - apply Qle_bool_iff in Hle. done.
  - split; unfold Qle; cbn; lia.
Qed.

(** The clamp does its work on every number that is one: anything but
    [NaN] comes out between 0 and 1. *)
Lemma clamp_in_unit_interval n :
  n <> NaN -> in_unit_interval (Math_max zero (Math_min one n)).
Proof.
  intros Hn. pose proof (Math_min_one n Hn) as Hmin.
  destruct (Math_min one n) as [| |q|] eqn:Hm; try done.
  apply Math_max_zero; try done. intros q' [= <-]. tauto.
Qed.

Lemma clamp_NaN : Math_max zero (Math_min one NaN) = NaN.
Proof. reflexivity. Qed.

Lemma clamp_is_NaN n : Math_max zero (Math_min one n) = NaN <-> n = NaN.
Proof.
  split; [|by intros ->]. intros Hc.
  assert (Hin : n <> NaN -> False); [|by destruct n; try done; destruct Hin].
  intros Hn. pose proof (clamp_in_unit_interval n Hn) as Hin.
  by rewrite Hc in Hin.
Qed.

(** Line 71, by the truth value of the raw confidence. *)
Lemma clampConfidence_spec raw :
  clampConfidence raw
  = if ToBoolean raw
    then n ← ToNumber raw; Some (Math_max zero (Math_min one n))
    else Some zero.
Proof. unfold clampConfidence, js_or. by destruct (ToBoolean raw). Qed.

(** What line 71 gives is [NaN] or lies between 0 and 1. *)
Lemma clampConfidence_range raw c :
  clampConfidence raw = Some c -> c = NaN \/ in_unit_interval c.
Proof.
  rewrite clampConfidence_spec. destruct (ToBoolean raw).
  - destruct (ToNumber raw) as [n|]; [|done].
    cbn [mbind option_bind]. intros Hc. apply (inj Some) in Hc. subst c.
    destruct n as [| |q|]; [by left| | |]; right.
    + by apply (clamp_in_unit_interval NegInfinity).
    + by apply (clamp_in_unit_interval (Finite q)).
    + by apply (clamp_in_unit_interval PosInfinity).
  - intros [= <-]. right. unfold zero. cbn. split; unfold Qle; cbn; lia.
Qed.

(** It is [NaN] exactly when the raw confidence is truthy and converts
    to [NaN]. *)
Lemma clampConfidence_NaN raw c :
  clampConfidence raw = Some c ->
  c = NaN <-> ToBoolean raw = true /\ ToNumber raw = Some NaN.
Proof.
  rewrite clampConfidence_spec. destruct (ToBoolean raw).
  - destruct (ToNumber raw) as [n|]; [|done].
    cbn [mbind option_bind]. intros Hc. apply (inj Some) in Hc. subst c.
    rewrite clamp_is_NaN. split; [by intros -> | by intros [_ [= ->]]].
  - intros [= <-]. split; [done | by intros [? _]].
Qed.

(** The conversion throws for no raw confidence but an object with a
    property [toString], or an array with such an object in it. *)
Lemma clampConfidence_throws raw :
  clampConfidence raw = None <-> ToNumber raw = None.
Proof.
  rewrite clampConfidence_spec. destruct (ToBoolean raw) eqn:Hb.
  - by destruct (ToNumber raw).
  - destruct raw as [| |b|n|s|elements|keys]; try done; split; discriminate.
Qed.

(** Every such raw confidence is clamped into the interval. *)
Lemma clampConfidence_numbers raw :
  plain raw -> exists c, clampConfidence raw = Some c /\ in_unit_interval c.
Proof.
  intros Hraw. rewrite clampConfidence_spec.
  assert (Hzero : in_unit_interval zero)
    by (unfold zero; cbn; split; unfold Qle; cbn; lia).
  destruct (ToBoolean raw) eqn:Hb; [|by exists zero].
  assert (exists n, ToNumber raw = Some n /\ n <> NaN) as (n & -> & Hn).
  { destruct raw as [| |b|n|s|elements|keys]; try done.
    - exists (if b then one else zero). split; [done|]. by destruct b.
    - exists n. split; [done|]. by intros ->. }
  eexists. split; [reflexivity|]. by apply clamp_in_unit_interval.
Qed.

(** Below 0 gives 0 and above 1 gives 1. *)
Lemma clampConfidence_saturates q :
  ((q < 0)%Q -> clampConfidence (JSNum (Finite q)) = Some zero) /\
  ((1 < q)%Q -> clampConfidence (JSNum (Finite q)) = Some one).
Proof.
  unfold clampConfidence, js_or. cbn. split; intros Hq.
  - assert (Hne : Qeq_bool q 0 = false).
    { apply not_true_is_false. intros H%Qeq_bool_iff. lra. }
    assert (Hle : Qle_bool 1 q = false).
    { apply not_true_is_false. intros H%Qle_bool_iff. lra. }
    assert (Hle0 : Qle_bool 0 q = false).
    { apply not_true_is_false. intros H%Qle_bool_iff. lra. }
    rewrite Hne. cbn. rewrite Hle. cbn. by rewrite Hle0.
  - assert (Hne : Qeq_bool q 0 = false).
    { apply not_true_is_false. intros H%Qeq_bool_iff. lra. }
    assert (Hle : Qle_bool 1 q = true) by (apply Qle_bool_iff; lra).
    rewrite Hne. cbn. by rewrite Hle.
Qed.

(** C7 (the code departs from it). The classifier answers
    [{"action": "reply", "confidence": "high", ...}]: the string is
    truthy, [Math.min(1, "high")] is [NaN] and so is [Math.max(0, NaN)];
    the confidence [analyzeEmail] returns is [NaN], which is not in
    [0, 1]. *)
Theorem analyzeEmail_confidence_not_clamped :
  outcome_of (analyzeEmail (env_confidence (JSString "high")) "alice"
                "Please send your resume.") fresh_world
  = Returns {| an_action := "reply";
               an_confidence := NaN;
               an_reasoning := "asks for a resume" |} /\
  ~ in_unit_interval NaN.
Proof. split; [reflexivity | intros []]. Qed.

(** ** The log and activity sink *)

Lemma chronological_from_weaken t t' l now :
  t <= t' -> chronological_from t' l now = true ->
  chronological_from t l now = true.
Proof.
  intros Ht. destruct l as [|r l]; cbn.
  - intros H%Nat.leb_le. apply Nat.leb_le. lia.
  - intros [H1%Nat.leb_le H2]%andb_prop. apply andb_true_intro.
    split; [apply Nat.leb_le; lia | done].
Qed.

Lemma chronological_from_later t l now :
  chronological_from t l now = true ->
  chronological_from t l (S now) = true.
Proof.
  revert t. induction l as [|r l IH]; cbn; intros t.
  - intros H%Nat.leb_le. apply Nat.leb_le. lia.
  - intros [H1 H2]%andb_prop. rewrite H1. cbn. by apply IH.
Qed.

Lemma chronological_from_bound t l now x :
  chronological_from t l now = true -> In x l -> t <= createdAt x.
Proof.
  revert t. induction l as [|r l IH]; cbn; intros t; [done|].
  intros [H1%Nat.leb_le H2]%andb_prop [<-|Hx]; [done|].
  specialize (IH _ H2 Hx). lia.
Qed.

Lemma chronological_from_filter f t l now :
  chronological_from t l now = true ->
  chronological_from t (List.filter f l) now = true.
Proof.
  revert t. induction l as [|r l IH]; cbn; intros t; [done|].
  intros [H1%Nat.leb_le H2]%andb_prop. destruct (f r); cbn.
  - apply andb_true_intro. split; [by apply Nat.leb_le | by apply IH].
  - apply IH. eapply chronological_from_weaken; [|exact H2]. lia.
Qed.

Lemma chronological_from_snoc t l now (r : EmailLog) :
  createdAt r = now ->
  chronological_from t l now = true ->
  chronological_from t (l ++ [r]) (S now) = true.
Proof.
  intros Hr. revert t. induction l as [|x l IH]; cbn; intros t.
  - intros H. rewrite Hr, H. cbn. apply Nat.leb_le. lia.
  - intros [H1 H2]%andb_prop. rewrite H1. cbn. by apply IH.
Qed.

(** A row older than all of the list goes to its end. *)
Lemma insert_desc_oldest r l :
  (forall x, In x l -> createdAt r <= createdAt x) ->
  insert_desc r l = l ++ [r].
Proof.
  induction l as [|x l IH]; intros Hall; [done|].
  assert (Hx : (createdAt x <? createdAt r)%nat = false).
  { apply Nat.ltb_ge. apply Hall. by left. }
  change (insert_desc r (x :: l))
    with (if (createdAt x <? createdAt r)%nat then r :: x :: l
          else x :: insert_desc r l).
  rewrite Hx. cbn. f_equal. apply IH. intros y Hy. apply Hall. by right.
Qed.

(** On rows in the order of their instants, [ORDER BY created_at DESC]
    is the reversal. *)
Lemma orderBy_desc_chronological t l now :
  chronological_from t l now = true -> orderBy_desc_createdAt l = rev l.
Proof.
  revert t. induction l as [|r l IH]; cbn; intros t; [done|].
  intros [H1 H2]%andb_prop.
  change (fold_right insert_desc [] l) with (orderBy_desc_createdAt l).
  rewrite (IH _ H2). apply insert_desc_oldest.
  intros x Hx%in_rev. pose proof (chronological_from_bound _ _ _ _ H2 Hx). lia.
Qed.

(** In a chronological world the idempotency check of [processEmail]
    reads the 50 latest rows of the user. *)
Lemma getUserEmailLogs_latest user w :
  chronological w ->
  getUserEmailLogs user None w = (w, Returns (take 50 (rows_of user w))).
Proof.
  intros Hw. unfold getUserEmailLogs, rows_of. cbn. do 3 f_equal.
  eapply orderBy_desc_chronological, chronological_from_filter, Hw.
Qed.

(** A text without U+0000, in two pieces. *)
Lemma has_NUL_app a b : has_NUL (a +:+ b) = has_NUL a || has_NUL b.
Proof.
  unfold has_NUL. induction a as [|c a IH]; [done|].
  change (String c a +:+ b) with (String c (a +:+ b)).
  cbn [String.list_ascii_of_string existsb]. by rewrite IH, orb_assoc.
Qed.

Lemma text_ok_app a b : text_ok (a +:+ b) = text_ok a && text_ok b.
Proof. unfold text_ok. by rewrite has_NUL_app, negb_orb. Qed.

Lemma insertEmailLog_outcome log w :
  outcome_of (insertEmailLog log) w
  = if email_logs_accepts log
    then Returns {| id := S (length (emailLogs w)); log_fields := log;
                    createdAt := clock w |}
    else Throws DatabaseError.
Proof. unfold outcome_of, insertEmailLog. by destruct (email_logs_accepts log). Qed.

(** The insert resolves exactly when the table takes the row. *)
Lemma insertEmailLog_resolves log w :
  (exists row, outcome_of (insertEmailLog log) w = Returns row)
  <-> email_logs_accepts log = true.
Proof.
  rewrite insertEmailLog_outcome.
  destruct (email_logs_accepts log); split; try done; [by eexists | by intros []].
Qed.

(** A row the table takes is appended, and nothing else changes but the
    clock. *)
Lemma insertEmailLog_spec log w :
  email_logs_accepts log = true ->
  let row := {| id := S (length (emailLogs w)); log_fields := log;
                createdAt := clock w |} in
  outcome_of (insertEmailLog log) w = Returns row /\
  emailLogs (world_after (insertEmailLog log) w) = emailLogs w ++ [row] /\
  activities (world_after (insertEmailLog log) w) = activities w /\
  userCredentials (world_after (insertEmailLog log) w) = userCredentials w /\
  clock (world_after (insertEmailLog log) w) = S (clock w) /\
  calls (world_after (insertEmailLog log) w) = calls w.
Proof.
  intros Hok. unfold outcome_of, world_after, insertEmailLog. by rewrite Hok.
Qed.

(** A row the table refuses leaves the world as it was. *)
Lemma insertEmailLog_refused log w :
  email_logs_accepts log = false ->
  insertEmailLog log w = (w, Throws DatabaseError).
Proof. intros Hno. unfold insertEmailLog. by rewrite Hno. Qed.

Lemma insertEmailLog_calls log w :
  calls (world_after (insertEmailLog log) w) = calls w.
Proof.
  unfold world_after, insertEmailLog. by destruct (email_logs_accepts log).
Qed.

Lemma insertEmailLog_chronological log w :
  chronological w -> chronological (world_after (insertEmailLog log) w).
Proof.
  intros Hw. unfold world_after, insertEmailLog.
  destruct (email_logs_accepts log); [|done]. by apply chronological_from_snoc.
Qed.

Lemma insertActivity_outcome activity w :
  outcome_of (insertActivity activity) w
  = if activities_accepts activity
    then Returns {| act_id := S (length (activities w));
                    act_fields := as_stored activity;
                    act_createdAt := clock w |}
    else Throws DatabaseError.
Proof.
  unfold outcome_of, insertActivity. by destruct (activities_accepts activity).
Qed.

Lemma insertActivity_spec activity w :
  activities_accepts activity = true ->
  let row := {| act_id := S (length (activities w));
                act_fields := as_stored activity;
                act_createdAt := clock w |} in
  outcome_of (insertActivity activity) w = Returns row /\
  emailLogs (world_after (insertActivity activity) w) = emailLogs w /\
  activities (world_after (insertActivity activity) w) = activities w ++ [row] /\
  userCredentials (world_after (insertActivity activity) w) = userCredentials w /\
  clock (world_after (insertActivity activity) w) = S (clock w) /\
  calls (world_after (insertActivity activity) w) = calls w.
Proof.
  intros Hok. unfold outcome_of, world_after, insertActivity. by rewrite Hok.
Qed.

Lemma insertActivity_chronological activity w :
  chronological w -> chronological (world_after (insertActivity activity) w).
Proof.
  intros Hw. unfold world_after, insertActivity.
  destruct (activities_accepts activity); [|done].
  by apply chronological_from_later.
Qed.

(** The table that takes the [pending] row of a message takes the rows
    the two handlers write after it, but for the text of a reply, and the
    activities table takes the activity of the message: their texts are
    those of the [pending] row and constants. *)
Lemma pending_accepted user email content act :
  email_logs_accepts (pending user email content act) = true ->
  text_ok user = true /\ text_ok (email_id email) = true /\
  text_ok (content_from content) = true /\
  text_ok (content_subject content) = true /\ text_ok act = true.
Proof.
  unfold email_logs_accepts, pending. cbn.
  rewrite !andb_true_iff. tauto.
Qed.

Lemma reply_failed_accepted user email from :
  text_ok user = true -> text_ok (email_id email) = true ->
  text_ok from = true ->
  email_logs_accepts (reply_failed user email from) = true.
Proof.
  intros Hu Hm Hf. unfold email_logs_accepts, reply_failed. cbn.
  by rewrite Hu, Hm, Hf.
Qed.

Lemma activity_accepted user content analysis :
  text_ok user = true -> text_ok (content_from content) = true ->
  text_ok (content_subject content) = true ->
  text_ok (an_action analysis) = true ->
  activities_accepts (activity_of user content analysis) = true.
Proof.
  intros Hu Hf Hs Ha. unfold activities_accepts, activity_of.
  cbn [act_userId act_type description metadata meta_from meta_subject
       meta_action].
  rewrite !text_ok_app, Hu, Hf, Hs, Ha. unfold action_words.
  by repeat case_match.
Qed.

(** ** The pipeline *)

Section PipelineFacts.

Variable env : Env.

(** The services write to no table; they only join the call history. *)

Lemma getAuthenticatedClient_world user w :
  world_after (getAuthenticatedClient user) w = w.
Proof.
  unfold world_after, getAuthenticatedClient, bind, getUserCredentials,
    throw, ret.
  cbn. by case_match.
Qed.

Lemma getEmailContent_spec email w :
  getEmailContent env email w =
  (world_after (record_call (GetEmailContent (email_id email))) w,
   match extract_content env email with
   | Some c => Returns c
   | None => Throws TypeError
   end).
Proof. unfold getEmailContent, bind. cbn. by case_match. Qed.

Lemma analyzeEmail_world user body w :
  world_after (analyzeEmail env user body) w =
  world_after (record_call (AnalyzeEmail user body)) w.
Proof.
  unfold world_after, analyzeEmail, bind, getUserCredentials, throw. cbn.
  repeat case_match; simplify_eq; done.
Qed.

Lemma generateReply_world user body from w :
  world_after (generateReply env user body from) w =
  world_after (record_call (GenerateReply user body from)) w.
Proof.
  unfold world_after, generateReply, bind, getUserCredentials, throw. cbn.
  repeat case_match; simplify_eq; done.
Qed.

Lemma sendEmail_world user to subj body w :
  world_after (sendEmail env user to subj body) w =
  world_after (record_call (SendEmail user to subj body)) w.
Proof.
  unfold world_after, sendEmail, getAuthenticatedClient, bind,
    getUserCredentials, throw, ret. cbn.
  repeat case_match; simplify_eq; done.
Qed.

Lemma starEmail_world user message w :
  world_after (starEmail env user message) w =
  world_after (record_call (StarEmail user message)) w.
Proof.
  unfold world_after, starEmail, getAuthenticatedClient, bind,
    getUserCredentials, throw, ret. cbn.
  repeat case_match; simplify_eq; done.
Qed.

(** A computation followed by another, and a [try] with its [catch]: the
    world and the outcome. *)
Lemma world_bind {A B} (m : M A) (k : A -> M B) w :
  world_after (bind m k) w =
  match outcome_of m w with
  | Returns a => world_after (k a) (world_after m w)
  | Throws e => world_after m w
  end.
Proof.
  unfold bind, outcome_of, world_after. by destruct (m w) as [w' [a|e]].
Qed.

Lemma outcome_bind {A B} (m : M A) (k : A -> M B) w :
  outcome_of (bind m k) w =
  match outcome_of m w with
  | Returns a => outcome_of (k a) (world_after m w)
  | Throws e => Throws e
  end.
Proof.
  unfold bind, outcome_of, world_after. by destruct (m w) as [w' [a|e]].
Qed.

Lemma world_try {A} (m : M A) (h : Exn -> M A) w :
  world_after (try_catch m h) w =
  match outcome_of m w with
  | Returns a => world_after m w
  | Throws e => world_after (h e) (world_after m w)
  end.
Proof.
  unfold try_catch, outcome_of, world_after. by destruct (m w) as [w' [a|e]].
Qed.

Lemma outcome_try {A} (m : M A) (h : Exn -> M A) w :
  outcome_of (try_catch m h) w =
  match outcome_of m w with
  | Returns a => Returns a
  | Throws e => outcome_of (h e) (world_after m w)
  end.
Proof.
  unfold try_catch, outcome_of, world_after. by destruct (m w) as [w' [a|e]].
Qed.

Lemma world_then_ret {A} (m : M A) w :
  world_after (m ;; ret tt) w = world_after m w.
Proof. rewrite world_bind. by destruct (outcome_of m w). Qed.

Lemma run_eta {A} (m : M A) w : m w = (world_after m w, outcome_of m w).
Proof. unfold world_after, outcome_of. by destruct (m w). Qed.

(** *** The Star Handler *)

(** For a user and a message whose ids the table takes, the handler
    writes one row, [sent] when the flag call resolves and [failed] when
    it throws, and returns. *)
Lemma handleStarAction_spec user email logId w :
  text_ok user = true -> text_ok (email_id email) = true ->
  let st := match outcome_of (starEmail env user (email_id email)) w with
            | Returns _ => ("Email starred", "sent")
            | Throws _ => ("Star failed", "failed")
            end in
  let row := {| id := S (length (emailLogs w));
                log_fields := {| userId := user;
                                 emailId := email_id email;
                                 fromEmail := "";
                                 subject := Some (fst st);
                                 action := "star";
                                 responseText := None;
                                 status := snd st |};
                createdAt := clock w |} in
  let w' := world_after (handleStarAction env user email logId) w in
  outcome_of (handleStarAction env user email logId) w = Returns tt /\
  emailLogs w' = emailLogs w ++ [row] /\
  activities w' = activities w /\
  userCredentials w' = userCredentials w /\
  clock w' = S (clock w) /\
  calls w' = calls w ++ [StarEmail user (email_id email)].
Proof.
  intros Hu Hm. unfold handleStarAction, star_attempt.
  rewrite outcome_try, world_try, !outcome_bind, !world_bind, starEmail_world.
  destruct (outcome_of (starEmail env user (email_id email)) w) as [[]|e];
    cbv beta iota; rewrite ?outcome_bind, ?world_bind;
    unfold outcome_of, world_after, insertEmailLog, email_logs_accepts;
    cbn; by rewrite Hu, Hm.
Qed.

(** *** The Reply Handler *)

(** [startsWith]. *)
Lemma prefix_begins_with p s : String.prefix p s = true <-> begins_with p s.
Proof.
  revert s. induction p as [|a p IH]; intros s.
  - split; [intros _; by exists s | by destruct s].
  - destruct s as [|b s]; simpl.
    + split; [done | by intros [t Ht]].
    + destruct (Ascii.ascii_dec a b) as [->|Hne].
      * rewrite IH. unfold begins_with. split; intros [t Ht]; exists t.
        -- simpl. by rewrite Ht.
        -- simpl in Ht. by injection Ht.
      * split; [done | intros [t Ht]].
        change (String a p +:+ t) with (String a (p +:+ t)) in Ht.
        congruence.
Qed.

(** The subject the handler sends with. *)
Lemma replySubject_spec s :
  (begins_with "Re:" s -> replySubject s = s) /\
  (~ begins_with "Re:" s -> replySubject s = "Re: " +:+ s).
Proof.
  unfold replySubject.
  pose proof (prefix_begins_with "Re:" s) as Hp.
  destruct (String.prefix "Re:" s); split; try done.
  - intros Hno. destruct Hno. by apply Hp.
  - intros Hyes%Hp. done.
Qed.

Lemma getEmailContent_world email w :
  world_after (getEmailContent env email) w =
  world_after (record_call (GetEmailContent (email_id email))) w.
Proof. unfold world_after at 1. by rewrite (getEmailContent_spec email w). Qed.

Lemma getEmailContent_outcome email w :
  outcome_of (getEmailContent env email) w =
  match extract_content env email with
  | Some c => Returns c
  | None => Throws TypeError
  end.
Proof. unfold outcome_of. by rewrite (getEmailContent_spec email w). Qed.

(** One round of symbolic execution: sequencing and [try] are split into
    world and outcome, and the services are reduced to their call. *)
Ltac run :=
  repeat (progress
            (rewrite ?outcome_bind, ?world_then_ret, ?world_bind, ?outcome_try,
               ?world_try,
               ?getEmailContent_outcome, ?getEmailContent_world,
               ?generateReply_world, ?sendEmail_world, ?starEmail_world,
               ?analyzeEmail_world;
             cbv beta iota)).

(** The handler returns whatever happens in its [try], when the table
    takes the [failed] row. *)
Lemma handleReplyAction_returns user email logId from body w :
  email_logs_accepts (reply_failed user email from) = true ->
  outcome_of (handleReplyAction env user email logId from body) w = Returns tt.
Proof.
  intros Hok. unfold handleReplyAction. rewrite outcome_try.
  destruct (outcome_of (reply_attempt env user email from body) w) as [[]|e];
    [done|].
  rewrite outcome_bind, insertEmailLog_outcome.
  change (email_logs_accepts _) with (email_logs_accepts (reply_failed user email from)).
  by rewrite Hok.
Qed.

Lemma handleStarAction_returns user email logId w :
  text_ok user = true -> text_ok (email_id email) = true ->
  outcome_of (handleStarAction env user email logId) w = Returns tt.
Proof. intros Hu Hm. by apply handleStarAction_spec. Qed.

Lemma dispatch_returns user email logId from body act w :
  text_ok user = true -> text_ok (email_id email) = true ->
  text_ok from = true ->
  outcome_of (dispatch env user email logId from body act) w = Returns tt.
Proof.
  intros Hu Hm Hf. unfold dispatch. repeat case_match;
    [by apply handleReplyAction_returns, reply_failed_accepted
    |by apply handleStarAction_returns | done].
Qed.

(** What the handler leaves, by what happens in its [try], for a message
    whose content can be extracted: [generateReply] returns or throws;
    the send resolves or throws; the table takes the [sent] row or not. *)
Lemma handleReplyAction_spec user email logId from body content w :
  extract_content env email = Some content ->
  let w1 := world_after (record_call (GenerateReply user body from)) w in
  let w2 := world_after (record_call (GetEmailContent (email_id email))) w1 in
  let subj := replySubject (content_subject content) in
  world_after (handleReplyAction env user email logId from body) w =
  match outcome_of (generateReply env user body from) w with
  | Throws _ =>
      world_after (insertEmailLog (reply_failed user email from)) w1
  | Returns text =>
      let w3 := world_after (record_call (SendEmail user from subj text)) w2 in
      match outcome_of (sendEmail env user from subj text) w2 with
      | Throws _ =>
          world_after (insertEmailLog (reply_failed user email from)) w3
      | Returns _ =>
          if email_logs_accepts (reply_sent user email from subj text)
          then world_after
                 (insertEmailLog (reply_sent user email from subj text)) w3
          else world_after (insertEmailLog (reply_failed user email from)) w3
      end
  end.
Proof.
  intros Hcontent w1 w2 subj.
  unfold handleReplyAction, reply_attempt. run. fold w1.
  destruct (outcome_of (generateReply env user body from) w) as [text|e];
    [|done].
  run. rewrite Hcontent. run. fold w1 w2 subj.
  destruct (outcome_of (sendEmail env user from subj text) w2) as [[]|e];
    [|done].
  run. rewrite insertEmailLog_outcome.
  change (email_logs_accepts _)
    with (email_logs_accepts (reply_sent user email from subj text)).
  destruct (email_logs_accepts (reply_sent user email from subj text)) eqn:Hsent;
    [done|].
  cbv beta iota. unfold world_after at 2.
  by rewrite (insertEmailLog_refused _ _ Hsent).
Qed.

(** *** [processEmail] *)

(** [processEmail] returns, whatever its [try] block does. *)
Lemma processEmail_returns user email w :
  outcome_of (processEmail env user email) w = Returns tt.
Proof.
  unfold processEmail. rewrite outcome_try.
  by destruct (outcome_of (processEmail_body env user email) w) as [[]|e].
Qed.

(** A message the check finds in the rows it reads is left alone. *)
Lemma processEmail_skips user email logs w :
  outcome_of (getUserEmailLogs user None) w = Returns logs ->
  alreadyProcessed logs email = true ->
  processEmail env user email w = (w, Returns tt).
Proof.
  intros Hlogs Hfound. rewrite run_eta, processEmail_returns. f_equal.
  unfold processEmail, processEmail_body.
  rewrite world_try, outcome_bind, world_bind, Hlogs, Hfound. done.
Qed.

(** The table takes the [pending] row of a message that is dispatched. *)
Lemma dispatches_accepted user email content analysis w :
  dispatches env user email w content analysis ->
  email_logs_accepts (pending user email content (an_action analysis)) = true.
Proof. intros (_ & _ & _ & Hrow). by apply insertEmailLog_resolves in Hrow. Qed.

(** The world up to the [pending] row, for a message whose content is
    extracted and which the classifier has analysed. *)
Lemma processEmail_analysed user email logs content analysis w :
  outcome_of (getUserEmailLogs user None) w = Returns logs ->
  alreadyProcessed logs email = false ->
  extract_content env email = Some content ->
  outcome_of (analyzeEmail env user (content_body content))
             (world_after (record_call (GetEmailContent (email_id email))) w)
  = Returns analysis ->
  let w0 := world_after (record_call (AnalyzeEmail user (content_body content)))
              (world_after (record_call (GetEmailContent (email_id email))) w) in
  world_after (processEmail env user email) w =
  if email_logs_accepts (pending user email content (an_action analysis))
  then
    let w1 := before_dispatch env user email content analysis w in
    let w2 := world_after
                (dispatch env user email (S (length (emailLogs w)))
                   (content_from content) (content_body content)
                   (an_action analysis)) w1 in
    world_after (insertActivity (activity_of user content analysis)) w2
  else w0.
Proof.
  intros Hlogs Hfresh Hcontent Hanalysis w0.
  unfold processEmail, processEmail_body. run.
  change (world_after (getUserEmailLogs user None) w) with w.
  rewrite Hlogs. cbv beta iota. rewrite Hfresh. run. rewrite Hcontent. run.
  rewrite Hanalysis. run. rewrite insertEmailLog_outcome. fold w0.
  destruct (email_logs_accepts (pending user email content (an_action analysis)))
    eqn:Hpending; cbv beta iota.
  - destruct (pending_accepted _ _ _ _ Hpending) as (Hu & Hm & Hf & Hs & Ha).
    run. rewrite dispatch_returns by done. run.
    rewrite insertActivity_outcome, activity_accepted by done. run.
    unfold before_dispatch. by rewrite analyzeEmail_world.
  - unfold world_after. by rewrite (insertEmailLog_refused _ _ Hpending).
Qed.

(** A message that is dispatched: the [pending] row, the handler of the
    action, and the activity. *)
Lemma processEmail_dispatched user email content analysis w :
  dispatches env user email w content analysis ->
  let w1 := before_dispatch env user email content analysis w in
  let w2 := world_after
              (dispatch env user email (S (length (emailLogs w)))
                 (content_from content) (content_body content)
                 (an_action analysis)) w1 in
  processEmail env user email w =
  (world_after (insertActivity (activity_of user content analysis)) w2,
   Returns tt).
Proof.
  intros Hd w1 w2. pose proof (dispatches_accepted _ _ _ _ _ Hd) as Hpending.
  destruct Hd as ((logs & Hlogs & Hfresh) & Hcontent & Hanalysis & _).
  rewrite run_eta, processEmail_returns. f_equal.
  rewrite (processEmail_analysed _ _ _ _ _ _ Hlogs Hfresh Hcontent Hanalysis).
  by rewrite Hpending.
Qed.

Lemma before_dispatch_spec user email content analysis w :
  email_logs_accepts (pending user email content (an_action analysis)) = true ->
  let w1 := before_dispatch env user email content analysis w in
  emailLogs w1
  = emailLogs w ++ [pending_row user email content (an_action analysis) w] /\
  activities w1 = activities w /\
  userCredentials w1 = userCredentials w /\
  clock w1 = S (clock w) /\
  calls w1 = calls w ++ [GetEmailContent (email_id email)]
                     ++ [AnalyzeEmail user (content_body content)].
Proof.
  intros Hpending. unfold before_dispatch. rewrite analyzeEmail_world.
  destruct (insertEmailLog_spec
              (pending_row user email content (an_action analysis) w)
              (world_after (record_call (AnalyzeEmail user (content_body content)))
                 (world_after (record_call (GetEmailContent (email_id email))) w))
              Hpending) as (_ & Hl & Ha & Hc & Ht & Hk).
  rewrite Hl, Ha, Hc, Ht, Hk. cbn. by rewrite <- app_assoc.
Qed.

(** *** The three ways of a dispatch *)

Lemma processEmail_reply_world user email content analysis w :
  dispatches env user email w content analysis ->
  an_action analysis = "reply" ->
  world_after (processEmail env user email) w =
  world_after (insertActivity (activity_of user content analysis))
    (world_after
       (handleReplyAction env user email (S (length (emailLogs w)))
          (content_from content) (content_body content))
       (before_dispatch env user email content analysis w)).
Proof.
  intros Hd Hact. unfold world_after at 1.
  rewrite (processEmail_dispatched _ _ _ _ _ Hd). cbn [fst].
  unfold dispatch. by rewrite Hact.
Qed.

Lemma processEmail_star_world user email content analysis w :
  dispatches env user email w content analysis ->
  an_action analysis = "star" ->
  world_after (processEmail env user email) w =
  world_after (insertActivity (activity_of user content analysis))
    (world_after (handleStarAction env user email (S (length (emailLogs w))))
       (before_dispatch env user email content analysis w)).
Proof.
  intros Hd Hact. unfold world_after at 1.
  rewrite (processEmail_dispatched _ _ _ _ _ Hd). cbn [fst].
  unfold dispatch. by rewrite Hact.
Qed.

Lemma processEmail_other_world user email content analysis w :
  dispatches env user email w content analysis ->
  an_action analysis <> "reply" ->
  an_action analysis <> "star" ->
  world_after (processEmail env user email) w =
  world_after (insertActivity (activity_of user content analysis))
    (before_dispatch env user email content analysis w).
Proof.
  intros Hd Hr Hs. unfold world_after at 1.
  rewrite (processEmail_dispatched _ _ _ _ _ Hd). cbn [fst].
  unfold dispatch.
  apply String.eqb_neq in Hr, Hs. by rewrite Hr, Hs.
Qed.

(** The activity of a dispatched message is taken by its table, and
    appended. *)
Lemma dispatched_activity user email content analysis w w2 :
  dispatches env user email w content analysis ->
  let w' := world_after (insertActivity (activity_of user content analysis)) w2 in
  emailLogs w' = emailLogs w2 /\
  activities w'
  = activities w2 ++ [activity_row (activity_of user content analysis) w2] /\
  userCredentials w' = userCredentials w2 /\
  calls w' = calls w2.
Proof.
  intros Hd.
  destruct (pending_accepted _ _ _ _ (dispatches_accepted _ _ _ _ _ Hd))
    as (Hu & Hm & Hf & Hs & Ha).
  destruct (insertActivity_spec (activity_of user content analysis) w2)
    as (_ & Hl & Hacts & Hc & _ & Hk); [by apply activity_accepted|].
  done.
Qed.

(** What the Reply Handler leaves in the tables, when the table takes
    the [failed] row: one row of the user for the message with action
    [reply], [sent] or [failed], and nothing else. *)
Lemma handleReplyAction_tables user email logId from body content w :
  extract_content env email = Some content ->
  email_logs_accepts (reply_failed user email from) = true ->
  let w' := world_after (handleReplyAction env user email logId from body) w in
  (exists t : EmailLog,
      emailLogs w' = emailLogs w ++ [t] /\
      terminal_row user email "reply" t) /\
  activities w' = activities w /\
  userCredentials w' = userCredentials w.
Proof.
  intros Hcontent Hfailed w'. unfold w'.
  rewrite (handleReplyAction_spec _ _ _ _ _ _ _ Hcontent).
  assert (Hrow : forall (log : InsertEmailLog) w0,
            email_logs_accepts log = true ->
            userId log = user -> emailId log = email_id email ->
            action log = "reply" ->
            status log = "sent" \/ status log = "failed" ->
            emailLogs w0 = emailLogs w -> activities w0 = activities w ->
            userCredentials w0 = userCredentials w ->
            (exists t : EmailLog,
                emailLogs (world_after (insertEmailLog log) w0)
                = emailLogs w ++ [t] /\
                terminal_row user email "reply" t) /\
            activities (world_after (insertEmailLog log) w0) = activities w /\
            userCredentials (world_after (insertEmailLog log) w0)
            = userCredentials w).
  { intros log w0 Hok Hu Hm Ha Hst Hl0 Ha0 Hc0.
    destruct (insertEmailLog_spec log w0 Hok) as (_ & Hl & Hacts & Hc & _).
    rewrite Hl, Hacts, Hc, Hl0, Ha0, Hc0. split; [|done].
    eexists. split; [reflexivity|]. by unfold terminal_row. }
  destruct (outcome_of (generateReply env user body from) w) as [text|e];
    [cbv zeta;
     destruct (outcome_of (sendEmail env user from _ text) _) as [[]|e];
     [destruct (email_logs_accepts (reply_sent user email from _ text)) eqn:Hsent|]
    |]; apply Hrow; try done; first [by left | by right].
Qed.

Lemma handleStarAction_tables user email logId w :
  text_ok user = true -> text_ok (email_id email) = true ->
  let w' := world_after (handleStarAction env user email logId) w in
  (exists t : EmailLog,
      emailLogs w' = emailLogs w ++ [t] /\
      terminal_row user email "star" t) /\
  activities w' = activities w /\
  userCredentials w' = userCredentials w.
Proof.
  intros Hu Hm.
  destruct (handleStarAction_spec user email logId w Hu Hm)
    as (_ & Hl & Ha & Hc & _).
  split; [|done]. eexists. split; [exact Hl|].
  unfold terminal_row. cbn.
  destruct (outcome_of (starEmail env user (email_id email)) w); cbn; eauto 6.
Qed.

(** The rows a dispatched message leaves: the [pending] row, then one
    terminal row for [reply] and [star] and none for any other action;
    one activity; and the credentials as they were. *)
Lemma processEmail_rows user email content analysis w :
  dispatches env user email w content analysis ->
  let w' := world_after (processEmail env user email) w in
  exists terminal : list EmailLog,
    emailLogs w'
    = emailLogs w
      ++ pending_row user email content (an_action analysis) w :: terminal /\
    Forall (terminal_row user email (an_action analysis)) terminal /\
    length terminal
    = (if String.eqb (an_action analysis) "reply" then 1
       else if String.eqb (an_action analysis) "star" then 1 else 0) /\
    (exists a : Activity,
        activities w' = activities w ++ [a] /\
        act_fields a = as_stored (activity_of user content analysis)) /\
    userCredentials w' = userCredentials w.
Proof.
  intros Hd w'.
  pose proof (dispatches_accepted _ _ _ _ _ Hd) as Hpending.
  destruct (pending_accepted _ _ _ _ Hpending) as (Hu & Hm & Hf & _ & _).
  destruct (before_dispatch_spec user email content analysis w Hpending)
    as (Hlogs & Hacts & Hcreds & _ & _).
  pose proof Hd as (_ & Hcontent & _).
  destruct (String.eqb (an_action analysis) "reply") eqn:Hr.
  - apply String.eqb_eq in Hr. unfold w'.
    rewrite (processEmail_reply_world _ _ _ _ _ Hd Hr).
    destruct (dispatched_activity user email content analysis w
                (world_after
                   (handleReplyAction env user email (S (length (emailLogs w)))
                      (content_from content) (content_body content))
                   (before_dispatch env user email content analysis w)) Hd)
      as (Hl' & Ha' & Hc' & _).
    destruct (handleReplyAction_tables user email (S (length (emailLogs w)))
                (content_from content) (content_body content) content
                (before_dispatch env user email content analysis w) Hcontent)
      as ((t & Ht & Hterm) & Ha & Hc); [by apply reply_failed_accepted|].
    exists [t]. rewrite Hl', Ha', Hc'.
    rewrite Ht, Ha, Hc, Hlogs, Hacts, Hcreds, <- app_assoc.
    split; [done|]. split; [constructor; [by rewrite Hr | constructor]|].
    split; [done|]. split; [by eexists|done].
  - apply String.eqb_neq in Hr.
    destruct (String.eqb (an_action analysis) "star") eqn:Hs.
    + apply String.eqb_eq in Hs. unfold w'.
      rewrite (processEmail_star_world _ _ _ _ _ Hd Hs).
      destruct (dispatched_activity user email content analysis w
                  (world_after
                     (handleStarAction env user email (S (length (emailLogs w))))
                     (before_dispatch env user email content analysis w)) Hd)
        as (Hl' & Ha' & Hc' & _).
      destruct (handleStarAction_tables user email (S (length (emailLogs w)))
                  (before_dispatch env user email content analysis w) Hu Hm)
        as ((t & Ht & Hterm) & Ha & Hc).
      exists [t]. rewrite Hl', Ha', Hc'.
      rewrite Ht, Ha, Hc, Hlogs, Hacts, Hcreds, <- app_assoc.
      split; [done|]. split; [constructor; [by rewrite Hs | constructor]|].
      split; [done|]. split; [by eexists|done].
    + apply String.eqb_neq in Hs. unfold w'.
      rewrite (processEmail_other_world _ _ _ _ _ Hd Hr Hs).
      destruct (dispatched_activity user email content analysis w
                  (before_dispatch env user email content analysis w) Hd)
        as (Hl' & Ha' & Hc' & _).
      exists []. rewrite Hl', Ha', Hc'.
      rewrite Hlogs, Hacts, Hcreds.
      split; [done|]. split; [constructor|].
      split; [done|]. split; [by eexists|done].
Qed.

(** C3. On a message for which [processEmail] dispatches [reply] or
    [star] (the [pending] row has been written and the [switch] is
    reached), the run appends to the log the [pending] row and then
    exactly one more row, a terminal one ([sent] or [failed]) of that
    message and action, and appends exactly one activity, that of the
    message as the table stores it. *)
Theorem processEmail_one_terminal_one_activity
    user email content analysis w :
  dispatches env user email w content analysis ->
  an_action analysis = "reply" \/ an_action analysis = "star" ->
  let w' := world_after (processEmail env user email) w in
  exists (terminal : EmailLog) (activity : Activity),
    emailLogs w'
    = emailLogs w ++ [pending_row user email content (an_action analysis) w;
                      terminal] /\
    status (pending_row user email content (an_action analysis) w) = "pending" /\
    terminal_row user email (an_action analysis) terminal /\
    activities w' = activities w ++ [activity] /\
    act_fields activity = as_stored (activity_of user content analysis) /\
    act_type activity = "email_" +:+ an_action analysis.
Proof.
  intros Hd Hact w'.
  destruct (processEmail_rows user email content analysis w Hd)
    as (terminal & Hl & Hterm & Hlen & (a & Ha & Hfields) & _).
  assert (Hone : length terminal = 1)
    by (destruct Hact as [Hact | Hact]; by rewrite Hact in Hlen).
  destruct terminal as [|t [|t' terminal]]; try done.
  exists t, a. split; [exact Hl|]. split; [done|].
  split; [by apply Forall_inv in Hterm|]. split; [exact Ha|].
  split; [exact Hfields|]. by rewrite Hfields.
Qed.






(** C8, as the code has it. The subject the Reply Handler sends with, for
    a message of subject [s]: [s] itself when [s] begins with the three
    characters [Re:] (case-sensitive; no space is asked for after the
    colon), and [s] with ["Re: "] before it otherwise.  The subject is
    that of the send call, the last call of the handler. *)
Theorem reply_subject_prefix user email logId from body content text w :
  extract_content env email = Some content ->
  outcome_of (generateReply env user body from) w = Returns text ->
  let s := content_subject content in
  exists subj,
    calls (world_after (handleReplyAction env user email logId from body) w)
    = calls w ++ [GenerateReply user body from;
                  GetEmailContent (email_id email);
                  SendEmail user from subj text] /\
    (begins_with "Re:" s -> subj = s) /\
    (~ begins_with "Re:" s -> subj = "Re: " +:+ s).
Proof.
  intros Hcontent Hgen s. exists (replySubject s).
  split; [|apply replySubject_spec].
  rewrite (handleReplyAction_spec _ _ _ _ _ _ _ Hcontent), Hgen. cbv zeta.
  destruct (outcome_of (sendEmail env user from _ text) _) as [[]|e];
    [destruct (email_logs_accepts (reply_sent user email from _ text))|];
    rewrite insertEmailLog_calls; cbn; by rewrite <- !app_assoc.
Qed.

(** *** The loop of [processNewEmails] *)

Lemma forEachEmail_returns user emails w :
  outcome_of (forEachEmail env user emails) w = Returns tt.
Proof.
  revert w. induction emails as [|email rest IH]; intros w; [done|].
  cbn [forEachEmail]. by rewrite outcome_bind, processEmail_returns.
Qed.

Lemma forEachEmail_app user before after w :
  forEachEmail env user (before ++ after) w =
  forEachEmail env user after (world_after (forEachEmail env user before) w).
Proof.
  revert w. induction before as [|email rest IH]; intros w; [done|].
  cbn [forEachEmail app].
  rewrite (run_eta (bind _ _)), outcome_bind, world_bind, processEmail_returns.
  rewrite <- run_eta. rewrite IH. f_equal.
  by rewrite world_bind, processEmail_returns.
Qed.

(** C5. Whatever throws while a message is processed, [processEmail]
    catches it: it returns.  So the loop of [processNewEmails] goes on:
    on a batch with the message anywhere in it, the messages after it are
    processed, from the world the message left, and the loop returns. *)
Theorem processEmail_failure_isolated user email before after w :
  (forall w0, outcome_of (processEmail env user email) w0 = Returns tt) /\
  forEachEmail env user (before ++ email :: after) w =
  forEachEmail env user after
    (world_after (processEmail env user email)
       (world_after (forEachEmail env user before) w)) /\
  outcome_of (forEachEmail env user (before ++ email :: after)) w = Returns tt.
Proof.
  split; [intros; apply processEmail_returns|].
  split; [|apply forEachEmail_returns].
  rewrite forEachEmail_app. cbn [forEachEmail].
  rewrite (run_eta (bind _ _)), outcome_bind, world_bind, processEmail_returns.
  by rewrite <- run_eta.
Qed.

(** C2. With no credentials record for the user, or with one whose
    [agentActive] is false (or null), [processNewEmails] returns at once
    and the world is what it was: no call was made to the mail client (or
    to any service) and no row was written. *)
Theorem processNewEmails_inactive user credentials w :
  outcome_of (getUserCredentials user) w = Returns credentials ->
  credentials = None \/
  (exists c, credentials = Some c /\
             (agentActive c = Some false \/ agentActive c = None)) ->
  let w' := world_after (processNewEmails env user) w in
  processNewEmails env user w = (w, Returns tt) /\
  mail_calls w' = mail_calls w /\
  calls w' = calls w /\
  emailLogs w' = emailLogs w /\
  activities w' = activities w.
Proof.
  intros Hcred Hoff w'.
  assert (Hrun : processNewEmails env user w = (w, Returns tt)).
  { rewrite run_eta. unfold processNewEmails, processNewEmails_body. run.
    rewrite Hcred. cbv beta iota.
    change (world_after (getUserCredentials user) w) with w.
    by destruct Hoff as [-> | (c & -> & [Hc | Hc])]; cbn; rewrite ?Hc. }
  unfold w', world_after. by rewrite Hrun.
Qed.

Lemma record_call_chronological c w :
  chronological w -> chronological (world_after (record_call c) w).
Proof. done. Qed.

(** A row of the user for the message, just written, is found by the
    check. *)
Lemma alreadyProcessed_latest user email (row : EmailLog) w :
  chronological w ->
  userId row = user -> emailId row = email_id email ->
  (exists older, emailLogs w = older ++ [row]) ->
  exists logs, outcome_of (getUserEmailLogs user None) w = Returns logs /\
               alreadyProcessed logs email = true.
Proof.
  intros Hw Hu Hm [older Holder]. eexists. split.
  - unfold outcome_of. by rewrite (getUserEmailLogs_latest user w Hw).
  - unfold rows_of. rewrite Holder, List.filter_app. cbn.
    rewrite Hu, String.eqb_refl, rev_app_distr. cbn.
    by rewrite Hm, String.eqb_refl.
Qed.

(** *** The log stays chronological *)

Lemma bind_chronological {A B} (m : M A) (k : A -> M B) :
  (forall w, chronological w -> chronological (world_after m w)) ->
  (forall a w, chronological w -> chronological (world_after (k a) w)) ->
  forall w, chronological w -> chronological (world_after (bind m k) w).
Proof.
  intros Hm Hk w Hw. rewrite world_bind.
  destruct (outcome_of m w); [apply Hk|]; by apply Hm.
Qed.

Lemma try_chronological {A} (m : M A) (h : Exn -> M A) :
  (forall w, chronological w -> chronological (world_after m w)) ->
  (forall e w, chronological w -> chronological (world_after (h e) w)) ->
  forall w, chronological w -> chronological (world_after (try_catch m h) w).
Proof.
  intros Hm Hh w Hw. rewrite world_try.
  destruct (outcome_of m w); [|apply Hh]; by apply Hm.
Qed.

(** The steps of the pipeline, one by one. *)
Ltac chronological_step :=
  first
    [ intros ? ?; rewrite ?generateReply_world, ?sendEmail_world,
        ?starEmail_world, ?analyzeEmail_world, ?getEmailContent_world;
      done
    | intros ? ?; apply insertEmailLog_chronological; done
    | intros ? ?; apply insertActivity_chronological; done
    | apply bind_chronological; [|intros ?]
    | apply try_chronological; [|intros ?] ].

Lemma handleReplyAction_chronological user email logId from body w :
  chronological w ->
  chronological (world_after (handleReplyAction env user email logId from body) w).
Proof.
  revert w. unfold handleReplyAction, reply_attempt.
  repeat chronological_step.
Qed.

Lemma handleStarAction_chronological user email logId w :
  chronological w ->
  chronological (world_after (handleStarAction env user email logId) w).
Proof.
  revert w. unfold handleStarAction, star_attempt.
  repeat chronological_step.
Qed.

Lemma dispatch_chronological user email logId from body act w :
  chronological w ->
  chronological (world_after (dispatch env user email logId from body act) w).
Proof.
  intros Hw. unfold dispatch. repeat case_match;
    [by apply handleReplyAction_chronological
    |by apply handleStarAction_chronological | done].
Qed.

(** Whatever a run of [processEmail] does, the rows of the log stay in
    the order of their instants, all before the clock. *)
Lemma processEmail_chronological user email w :
  chronological w -> chronological (world_after (processEmail env user email) w).
Proof.
  revert w. unfold processEmail, processEmail_body.
  apply try_chronological; [|done].
  apply bind_chronological; [done|]. intros logs.
  destruct (alreadyProcessed logs email); [done|].
  repeat chronological_step.
  intros w Hw. by apply dispatch_chronological.
Qed.

Lemma forEachEmail_chronological user emails w :
  chronological w ->
  chronological (world_after (forEachEmail env user emails) w).
Proof.
  revert w. induction emails as [|email rest IH]; intros w Hw; [done|].
  cbn [forEachEmail]. rewrite world_bind, processEmail_returns.
  by apply IH, processEmail_chronological.
Qed.

Lemma getEmails_world user query maxResults w :
  world_after (getEmails env user query maxResults) w =
  world_after (record_call (GetEmails user query maxResults)) w.
Proof.
  unfold world_after, getEmails, getAuthenticatedClient, bind,
    getUserCredentials, throw, ret. cbn.
  repeat case_match; simplify_eq; done.
Qed.

(** The request of the classifier fails inside [analyzeEmail] (a key is
    configured): [analyzeEmail] does not throw, it returns [ignore] with
    confidence 0 and ['Error analyzing email'].  So [processEmail]
    appends the [pending] row with action [ignore], when the table takes
    it, and the [email_ignore] activity, nothing else; and the
    idempotency check then finds the message: processing it again at
    once changes nothing. *)
Theorem analysis_failure_marks_processed user email content credentials w :
  chronological w ->
  (exists logs, outcome_of (getUserEmailLogs user None) w = Returns logs /\
                alreadyProcessed logs email = false) ->
  extract_content env email = Some content ->
  outcome_of (getUserCredentials user) w = Returns credentials ->
  truthy (credentials ≫= openaiApiKey) = true ->
  chat_json env (calls w ++ [GetEmailContent (email_id email)]
                         ++ [AnalyzeEmail user (content_body content)]) = None ->
  email_logs_accepts (pending user email content "ignore") = true ->
  let w' := world_after (processEmail env user email) w in
  outcome_of (analyzeEmail env user (content_body content))
             (world_after (record_call (GetEmailContent (email_id email))) w)
  = Returns {| an_action := "ignore";
               an_confidence := zero;
               an_reasoning := "Error analyzing email" |} /\
  emailLogs w' = emailLogs w ++ [pending_row user email content "ignore" w] /\
  (exists activity : Activity,
     activities w' = activities w ++ [activity] /\
     act_userId activity = user /\
     act_type activity = "email_ignore") /\
  processEmail env user email w' = (w', Returns tt).
Proof.
  intros Hw Hfresh Hcontent Hcred Hkey Hchat Hpending w'.
  assert (Han : outcome_of (analyzeEmail env user (content_body content))
                  (world_after (record_call (GetEmailContent (email_id email))) w)
                = Returns analysis_error).
  { unfold analyzeEmail. run.
    change (outcome_of (record_call ?c) ?w0) with (@Returns unit tt). run.
    change (outcome_of (getUserCredentials user)
              (world_after (record_call ?c) (world_after (record_call ?d) w)))
      with (outcome_of (getUserCredentials user) w).
    rewrite Hcred. run. rewrite Hkey. cbn [negb].
    unfold outcome_of. cbn. rewrite <- app_assoc. by rewrite Hchat. }
  assert (Hd : dispatches env user email w content analysis_error).
  { split; [done|]. split; [done|]. split; [done|].
    by apply insertEmailLog_resolves. }
  destruct (processEmail_rows user email content analysis_error w Hd)
    as (terminal & Hl & _ & Hlen & (a & Ha & Hfields) & _).
  fold w' in Hl, Ha. destruct terminal; [|done].
  split; [done|]. split; [done|]. split.
  { exists a. split; [done|]. by rewrite Hfields. }
  assert (Hw' : chronological w') by by apply processEmail_chronological.
  destruct (alreadyProcessed_latest user email
              (pending_row user email content "ignore" w) w' Hw')
    as (logs & Hlogs & Hfound); try done; [by eexists|].
  by apply (processEmail_skips user email logs).
Qed.

(** A run of the pipeline keeps the log chronological. *)
Lemma processNewEmails_chronological user w :
  chronological w -> chronological (world_after (processNewEmails env user) w).
Proof.
  intros Hw. unfold processNewEmails, processNewEmails_body. run.
  change (outcome_of (getUserCredentials user) w)
    with (Returns (List.find (fun c => String.eqb (cred_userId c) user)
                             (userCredentials w))).
  cbv beta iota. change (world_after (getUserCredentials user) w) with w.
  destruct (negb _); [done|]. run. rewrite getEmails_world.
  destruct (outcome_of (getEmails env user _ 10) w) as [emails|e]; [|done].
  rewrite forEachEmail_returns. by apply forEachEmail_chronological.
Qed.

(** *** What a run writes, and what it leaves alone *)

Lemma logs_of_app user l1 l2 :
  logs_of user (l1 ++ l2) = logs_of user l1 ++ logs_of user l2.
Proof. apply List.filter_app. Qed.

Lemma logs_of_own user (l : list EmailLog) :
  Forall (fun r : EmailLog => userId r = user) l -> logs_of user l = l.
Proof.
  induction 1 as [|r l Hr _ IH]; [done|]. unfold logs_of in *. cbn.
  by rewrite Hr, String.eqb_refl, IH.
Qed.

Lemma with_action_app a l1 l2 :
  with_action a (l1 ++ l2) = with_action a l1 ++ with_action a l2.
Proof. apply List.filter_app. Qed.

Lemma with_action_same a (l : list EmailLog) :
  Forall (fun r : EmailLog => action r = a) l -> with_action a l = l.
Proof.
  induction 1 as [|r l Hr _ IH]; [done|]. unfold with_action in *. cbn.
  by rewrite Hr, String.eqb_refl, IH.
Qed.

Lemma with_action_other a b (l : list EmailLog) :
  a <> b -> Forall (fun r : EmailLog => action r = b) l -> with_action a l = [].
Proof.
  intros Hab. induction 1 as [|r l Hr _ IH]; [done|].
  unfold with_action in *. cbn. rewrite Hr.
  assert (Hne : String.eqb b a = false) by (apply String.eqb_neq; congruence).
  by rewrite Hne.
Qed.

(** Whatever happens to a message, [processEmail] only appends: at most
    two rows, all of the user and for the message, at most one activity,
    of the user, and an activity only with a row; the credentials are not
    touched. *)
Lemma processEmail_frame user email w :
  let w' := world_after (processEmail env user email) w in
  exists (new_logs : list EmailLog) (new_acts : list Activity),
    emailLogs w' = emailLogs w ++ new_logs /\
    activities w' = activities w ++ new_acts /\
    userCredentials w' = userCredentials w /\
    length new_logs <= 2 /\
    length new_acts <= 1 /\
    (new_logs = [] <-> new_acts = []) /\
    Forall (fun r : EmailLog => userId r = user /\ emailId r = email_id email)
           new_logs /\
    Forall (fun a : Activity => act_userId a = user) new_acts.
Proof.
  intros w'.
  assert (Hnothing : forall w0 : World,
            emailLogs w0 = emailLogs w -> activities w0 = activities w ->
            userCredentials w0 = userCredentials w -> w' = w0 ->
            exists (new_logs : list EmailLog) (new_acts : list Activity),
              emailLogs w' = emailLogs w ++ new_logs /\
              activities w' = activities w ++ new_acts /\
              userCredentials w' = userCredentials w /\
              length new_logs <= 2 /\ length new_acts <= 1 /\
              (new_logs = [] <-> new_acts = []) /\
              Forall (fun r : EmailLog =>
                        userId r = user /\ emailId r = email_id email) new_logs /\
              Forall (fun a : Activity => act_userId a = user) new_acts).
  { intros w0 Hl Ha Hc ->. exists [], []. rewrite !app_nil_r.
    repeat split; try done; cbn; lia. }
  pose (logs := take 50 (orderBy_desc_createdAt
                           (List.filter (fun l : EmailLog => String.eqb (userId l) user)
                                        (emailLogs w)))).
  assert (Hlogs : outcome_of (getUserEmailLogs user None) w = Returns logs)
    by reflexivity.
  destruct (alreadyProcessed logs email) eqn:Hfound.
  { apply (Hnothing w); try done. unfold w', world_after.
    by rewrite (processEmail_skips user email logs w Hlogs Hfound). }
  destruct (extract_content env email) as [content|] eqn:Hcontent.
  2:{ apply (Hnothing (world_after (record_call (GetEmailContent (email_id email))) w));
        try done.
      unfold w', processEmail, processEmail_body. run.
      rewrite Hlogs. cbv beta iota. rewrite Hfound. run. by rewrite Hcontent. }
  destruct (outcome_of (analyzeEmail env user (content_body content))
              (world_after (record_call (GetEmailContent (email_id email))) w))
    as [analysis|e] eqn:Han.
  2:{ apply (Hnothing (world_after (record_call (AnalyzeEmail user (content_body content)))
                         (world_after (record_call (GetEmailContent (email_id email))) w)));
        try done.
      unfold w', processEmail, processEmail_body. run.
      rewrite Hlogs. cbv beta iota. rewrite Hfound. run. rewrite Hcontent. run.
      change (world_after (getUserEmailLogs user None) w) with w.
      by rewrite Han. }
  destruct (email_logs_accepts (pending user email content (an_action analysis)))
    eqn:Hpending.
  2:{ apply (Hnothing (world_after (record_call (AnalyzeEmail user (content_body content)))
                         (world_after (record_call (GetEmailContent (email_id email))) w)));
        try done.
      unfold w'.
      by rewrite (processEmail_analysed _ _ _ _ _ _ Hlogs Hfound Hcontent Han),
        Hpending. }
  assert (Hd : dispatches env user email w content analysis).
  { split; [by exists logs|]. split; [done|]. split; [done|].
    by apply insertEmailLog_resolves. }
  destruct (processEmail_rows user email content analysis w Hd)
    as (terminal & Hl & Hterm & Hlen & (a & Ha & Hfields) & Hc).
  exists (pending_row user email content (an_action analysis) w :: terminal), [a].
  split; [done|]. split; [done|]. split; [done|].
  split; [cbn; repeat case_match; lia|]. split; [cbn; lia|].
  split; [done|]. split.
  - constructor; [done|]. eapply Forall_impl; [exact Hterm|].
    by intros r (? & ? & _).
  - constructor; [|constructor]. by rewrite Hfields.
Qed.

Lemma forEachEmail_frame user emails w :
  let w' := world_after (forEachEmail env user emails) w in
  exists (new_logs : list EmailLog) (new_acts : list Activity),
    emailLogs w' = emailLogs w ++ new_logs /\
    activities w' = activities w ++ new_acts /\
    userCredentials w' = userCredentials w /\
    length new_logs <= 2 * length emails /\
    length new_acts <= length emails /\
    Forall (fun r : EmailLog =>
              userId r = user /\
              exists email, In email emails /\ emailId r = email_id email)
           new_logs /\
    Forall (fun a : Activity => act_userId a = user) new_acts.
Proof.
  revert w. induction emails as [|email rest IH]; intros w.
  - exists [], []. cbn. rewrite !app_nil_r. repeat split; try done.
  - cbn zeta. cbn [forEachEmail]. rewrite world_bind, processEmail_returns.
    destruct (processEmail_frame user email w)
      as (l1 & a1 & Hl1 & Ha1 & Hc1 & Hn1 & Hm1 & _ & Hu1 & Hv1).
    destruct (IH (world_after (processEmail env user email) w))
      as (l2 & a2 & Hl2 & Ha2 & Hc2 & Hn2 & Hm2 & Hu2 & Hv2).
    exists (l1 ++ l2), (a1 ++ a2).
    rewrite Hl2, Ha2, Hc2, Hl1, Ha1, Hc1, <- !app_assoc, !length_app.
    split; [done|]. split; [done|]. split; [done|].
    split; [cbn; lia|]. split; [cbn; lia|].
    split; [|by apply Forall_app].
    apply Forall_app. split.
    + eapply Forall_impl; [exact Hu1|]. intros r [? ?]. split; [done|].
      exists email. split; [by left | done].
    + eapply Forall_impl; [exact Hu2|]. intros r [? (m & ? & ?)].
      split; [done|]. exists m. split; [by right | done].
Qed.

(** X5. [processEmail] only appends, whatever happens to the message: at
    most two rows, each of the user and for this message, and at most one
    activity, of the user, written exactly when a row is; the rows and
    activities that were there stay as they are and the credentials are
    not touched. *)
Theorem processEmail_appends user email w :
  let w' := world_after (processEmail env user email) w in
  exists (new_logs : list EmailLog) (new_acts : list Activity),
    emailLogs w' = emailLogs w ++ new_logs /\
    activities w' = activities w ++ new_acts /\
    userCredentials w' = userCredentials w /\
    length new_logs <= 2 /\
    length new_acts <= 1 /\
    (new_logs = [] <-> new_acts = []) /\
    Forall (fun r : EmailLog => userId r = user /\ emailId r = email_id email)
           new_logs /\
    Forall (fun a : Activity => act_userId a = user) new_acts.
Proof. apply processEmail_frame. Qed.

(** X6. A run of the pipeline for a user only appends rows and
    activities of that user: what was in the tables stays, the
    credentials are not touched, and the rows of any other user are the
    same after the run as before.  When the fetch returns, no more than
    two rows and one activity are written per fetched message, each row
    for one of the fetched messages. *)
Theorem processNewEmails_appends user w :
  let w' := world_after (processNewEmails env user) w in
  exists (new_logs : list EmailLog) (new_acts : list Activity),
    emailLogs w' = emailLogs w ++ new_logs /\
    activities w' = activities w ++ new_acts /\
    userCredentials w' = userCredentials w /\
    Forall (fun r : EmailLog => userId r = user) new_logs /\
    Forall (fun a : Activity => act_userId a = user) new_acts /\
    (forall other, other <> user ->
       logs_of other (emailLogs w') = logs_of other (emailLogs w)) /\
    (forall emails,
       outcome_of (getEmails env user "is:unread newer_than:1d" 10) w
       = Returns emails ->
       length new_logs <= 2 * length emails /\
       length new_acts <= length emails /\
       Forall (fun r : EmailLog =>
                 exists email, In email emails /\ emailId r = email_id email)
              new_logs).
Proof.
  intros w'.
  assert (Hothers : forall new_logs : list EmailLog,
            Forall (fun r : EmailLog => userId r = user) new_logs ->
            forall other, other <> user ->
              logs_of other (emailLogs w ++ new_logs)
              = logs_of other (emailLogs w)).
  { intros new_logs Hown other Hne. rewrite logs_of_app.
    assert (Hnone : logs_of other new_logs = []); [|by rewrite Hnone, app_nil_r].
    induction Hown as [|r l Hr _ IH]; [done|]. unfold logs_of in *. cbn.
    assert (Hneq : String.eqb (userId r) other = false)
      by (apply String.eqb_neq; congruence).
    by rewrite Hneq. }
  assert (Hrun : w' = w \/
            w' = world_after (record_call (GetEmails user "is:unread newer_than:1d" 10)) w
                 /\ (forall emails,
                       outcome_of (getEmails env user "is:unread newer_than:1d" 10) w
                       <> Returns emails) \/
            exists emails,
              outcome_of (getEmails env user "is:unread newer_than:1d" 10) w
              = Returns emails /\
              w' = world_after (forEachEmail env user emails)
                     (world_after (record_call (GetEmails user "is:unread newer_than:1d" 10)) w)).
  { unfold w', processNewEmails, processNewEmails_body. run.
    change (outcome_of (getUserCredentials user) w)
      with (Returns (List.find (fun c => String.eqb (cred_userId c) user)
                               (userCredentials w))).
    cbv beta iota. change (world_after (getUserCredentials user) w) with w.
    destruct (negb _); [by left|]. run. rewrite getEmails_world.
    destruct (outcome_of (getEmails env user _ 10) w) as [emails|e] eqn:Hget.
    - right. right. exists emails. split; [done|].
      by rewrite forEachEmail_returns.
    - right. left. split; [done|]. by intros emails. }
  destruct Hrun as [-> | [[-> Hno] | (emails & Hget & ->)]].
  - exists [], []. rewrite !app_nil_r. do 6 (split; [done|]).
    intros emails Hget. cbn. split; [lia|]. split; [lia|done].
  - exists [], []. cbn. rewrite !app_nil_r. do 6 (split; [done|]).
    intros emails Hget. by destruct (Hno emails).
  - destruct (forEachEmail_frame user emails
                (world_after (record_call (GetEmails user "is:unread newer_than:1d" 10)) w))
      as (new_logs & new_acts & Hl & Ha & Hc & Hn & Hm & Hu & Hv).
    exists new_logs, new_acts. cbn zeta in *.
    assert (Hown : Forall (fun r : EmailLog => userId r = user) new_logs)
      by (eapply Forall_impl; [exact Hu|]; by intros r [? _]).
    split; [exact Hl|]. split; [exact Ha|]. split; [exact Hc|].
    split; [exact Hown|]. split; [exact Hv|]. split.
    + intros other Hne. rewrite Hl. by apply Hothers.
    + intros emails' Hget'. rewrite Hget in Hget'. injection Hget' as <-.
      split; [done|]. split; [done|].
      eapply Forall_impl; [exact Hu|]. by intros r [_ ?].
Qed.

(** X7. The agent is switched on and the fetch throws (Gmail is not
    connected, or a request of the Gmail API rejects): the run returns
    without an error; its only trace is the [getEmails] call; no row and
    no activity is written. *)
Theorem processNewEmails_fetch_fails user credentials e w :
  outcome_of (getUserCredentials user) w = Returns (Some credentials) ->
  agentActive credentials = Some true ->
  outcome_of (getEmails env user "is:unread newer_than:1d" 10) w = Throws e ->
  let w' := world_after (processNewEmails env user) w in
  outcome_of (processNewEmails env user) w = Returns tt /\
  calls w' = calls w ++ [GetEmails user "is:unread newer_than:1d" 10] /\
  emailLogs w' = emailLogs w /\
  activities w' = activities w.
Proof.
  intros Hcred Hactive Hget w'.
  assert (Hw' : w' = world_after (record_call (GetEmails user "is:unread newer_than:1d" 10)) w).
  { unfold w', processNewEmails, processNewEmails_body. run.
    rewrite Hcred. cbv beta iota.
    change (world_after (getUserCredentials user) w) with w.
    cbn [mbind option_bind]. rewrite Hactive. cbn. run.
    rewrite Hget. by rewrite getEmails_world. }
  split; [|by rewrite Hw'].
  unfold processNewEmails. rewrite outcome_try.
  by destruct (outcome_of (processNewEmails_body env user) w) as [[]|].
Qed.

(** X8. A message that is not in the log and whose content cannot be
    extracted (no payload, or no headers), or for whose user no
    classifier key is configured: [processEmail] returns, writes no row
    and no activity, and the message is still not in the log, so the next
    run takes it up again. *)
Theorem processEmail_writes_nothing user email logs w :
  outcome_of (getUserEmailLogs user None) w = Returns logs ->
  alreadyProcessed logs email = false ->
  extract_content env email = None \/
  (exists credentials,
      outcome_of (getUserCredentials user) w = Returns credentials /\
      truthy (credentials ≫= openaiApiKey) = false) ->
  let w' := world_after (processEmail env user email) w in
  outcome_of (processEmail env user email) w = Returns tt /\
  emailLogs w' = emailLogs w /\
  activities w' = activities w /\
  outcome_of (getUserEmailLogs user None) w' = Returns logs /\
  Forall (fun c => c = GetEmailContent (email_id email) \/
                   exists body, c = AnalyzeEmail user body)
         (drop (length (calls w)) (calls w')).
Proof.
  intros Hlogs Hfresh Hcause w'. split; [apply processEmail_returns|].
  assert (Hw' : w' = world_after (record_call (GetEmailContent (email_id email))) w \/
                exists body,
                  w' = world_after (record_call (AnalyzeEmail user body))
                         (world_after (record_call (GetEmailContent (email_id email))) w)).
  { unfold w', processEmail, processEmail_body. run.
    rewrite Hlogs. cbv beta iota. rewrite Hfresh. run.
    change (world_after (getUserEmailLogs user None) w) with w.
    destruct (extract_content env email) as [content|] eqn:Hcontent; run.
    - destruct Hcause as [? | (credentials & Hcred & Hkey)]; [done|].
      right. exists (content_body content).
      assert (Han : outcome_of (analyzeEmail env user (content_body content))
                      (world_after (record_call (GetEmailContent (email_id email))) w)
                    = Throws (Error "OpenAI API key not configured")).
      { unfold analyzeEmail. run.
        change (outcome_of (record_call ?c) ?w0) with (@Returns unit tt). run.
        change (outcome_of (getUserCredentials user)
                  (world_after (record_call ?c) (world_after (record_call ?d) w)))
          with (outcome_of (getUserCredentials user) w).
        rewrite Hcred. run. by rewrite Hkey. }
      by rewrite Han.
    - by left. }
  destruct Hw' as [-> | [body ->]].
  - repeat split; try done. cbn. rewrite drop_app_length.
    constructor; [by left | constructor].
  - repeat split; try done. cbn. rewrite <- app_assoc, drop_app_length.
    constructor; [by left|]. constructor; [right; by exists body | constructor].
Qed.

(** The table refuses the [pending] row exactly when one of its texts
    holds U+0000. *)
Lemma pending_refused user email content act :
  email_logs_accepts (pending user email content act) = false <->
  has_NUL user || has_NUL (email_id email) || has_NUL (content_from content)
  || has_NUL (content_subject content) || has_NUL act = true.
Proof.
  unfold email_logs_accepts, pending, nullable_text_ok.
  cbn [userId emailId fromEmail subject action responseText status from_option].
  change (text_ok "pending") with true. rewrite !andb_true_r. unfold text_ok.
  destruct (has_NUL user), (has_NUL (email_id email)),
    (has_NUL (content_from content)), (has_NUL (content_subject content)),
    (has_NUL act); cbn; split; congruence.
Qed.

(** X25. A message that is not in the log, whose content is extracted and
    which the classifier has analysed, and one of whose texts (the
    sender, the subject, the id, the action answered, or the user's id)
    holds the character U+0000: the table refuses the [pending] row,
    [processEmail] returns, no handler runs (nothing is sent or starred),
    no row and no activity is written, and the message is still not in
    the log, so every later run reads and analyses it again. *)
Theorem processEmail_row_refused user email logs content analysis w :
  outcome_of (getUserEmailLogs user None) w = Returns logs ->
  alreadyProcessed logs email = false ->
  extract_content env email = Some content ->
  outcome_of (analyzeEmail env user (content_body content))
             (world_after (record_call (GetEmailContent (email_id email))) w)
  = Returns analysis ->
  has_NUL user || has_NUL (email_id email) || has_NUL (content_from content)
  || has_NUL (content_subject content) || has_NUL (an_action analysis) = true ->
  let w' := world_after (processEmail env user email) w in
  outcome_of (processEmail env user email) w = Returns tt /\
  calls w' = calls w ++ [GetEmailContent (email_id email);
                         AnalyzeEmail user (content_body content)] /\
  emailLogs w' = emailLogs w /\
  activities w' = activities w /\
  outcome_of (getUserEmailLogs user None) w' = Returns logs /\
  ~ dispatches env user email w content analysis.
Proof.
  intros Hlogs Hfresh Hcontent Han Hnul%pending_refused w'.
  split; [apply processEmail_returns|].
  assert (Hw' : w' = world_after (record_call (AnalyzeEmail user (content_body content)))
                       (world_after (record_call (GetEmailContent (email_id email))) w)).
  { unfold w'.
    by rewrite (processEmail_analysed _ _ _ _ _ _ Hlogs Hfresh Hcontent Han), Hnul. }
  rewrite Hw'. cbn. rewrite <- app_assoc.
  do 4 (split; [done|]).
  intros Hd%dispatches_accepted. congruence.
Qed.

(** X9. An action that is neither [reply] nor [star] ([ignore], or any
    other string the classifier answers): [processEmail] makes no call
    to the mail client beyond reading the content (it sends nothing and
    stars nothing); it writes the [pending] row with that action and no
    terminal row, and one activity named after the action and described
    as ["Email processed: <subject>"], whose stored confidence is that of
    the analysis, or [null] when that is [NaN]. *)
Theorem processEmail_other_action user email content analysis w :
  dispatches env user email w content analysis ->
  an_action analysis <> "reply" ->
  an_action analysis <> "star" ->
  let w' := world_after (processEmail env user email) w in
  calls w' = calls w ++ [GetEmailContent (email_id email);
                         AnalyzeEmail user (content_body content)] /\
  emailLogs w'
  = emailLogs w ++ [pending_row user email content (an_action analysis) w] /\
  exists a : Activity,
    activities w' = activities w ++ [a] /\
    act_userId a = user /\
    act_type a = "email_" +:+ an_action analysis /\
    description a = "Email processed: " +:+ content_subject content /\
    meta_confidence (metadata a) = JSON_number (an_confidence analysis).
Proof.
  intros Hd Hr Hs w'. unfold w'.
  rewrite (processEmail_other_world _ _ _ _ _ Hd Hr Hs).
  destruct (before_dispatch_spec user email content analysis w
              (dispatches_accepted _ _ _ _ _ Hd))
    as (Hlogs & Hacts & _ & _ & Hcalls).
  destruct (dispatched_activity user email content analysis w
              (before_dispatch env user email content analysis w) Hd)
    as (Hl' & Ha' & _ & Hk').
  rewrite Hl', Ha', Hk', Hlogs, Hacts, Hcalls, <- ?app_assoc.
  split; [done|]. split; [done|]. eexists. split; [reflexivity|].
  cbn. repeat split. unfold action_words.
  apply String.eqb_neq in Hr, Hs. by rewrite Hr, Hs.
Qed.

(** X10. A message classified [star]: exactly one call stars it and none
    sends anything; after the [pending] row comes one row with action
    [star] and an empty sender, [sent] with subject ["Email starred"]
    when the star call resolves and [failed] with ["Star failed"] when
    it throws; and the [email_star] activity is recorded either way. *)
Theorem processEmail_star user email content analysis w :
  dispatches env user email w content analysis ->
  an_action analysis = "star" ->
  let w' := world_after (processEmail env user email) w in
  let w1 := before_dispatch env user email content analysis w in
  calls w' = calls w ++ [GetEmailContent (email_id email);
                         AnalyzeEmail user (content_body content);
                         StarEmail user (email_id email)] /\
  (exists t : EmailLog,
      emailLogs w'
      = emailLogs w ++ [pending_row user email content "star" w; t] /\
      userId t = user /\ emailId t = email_id email /\
      action t = "star" /\ fromEmail t = "" /\
      (subject t, status t)
      = match outcome_of (starEmail env user (email_id email)) w1 with
        | Returns _ => (Some "Email starred", "sent")
        | Throws _ => (Some "Star failed", "failed")
        end) /\
  exists a : Activity,
    activities w' = activities w ++ [a] /\
    act_type a = "email_star" /\
    description a = "Email starred: " +:+ content_subject content.
Proof.
  intros Hd Hact w' w1. unfold w'.
  rewrite (processEmail_star_world _ _ _ _ _ Hd Hact).
  pose proof (dispatches_accepted _ _ _ _ _ Hd) as Hpending.
  destruct (pending_accepted _ _ _ _ Hpending) as (Hu & Hm & _).
  destruct (before_dispatch_spec user email content analysis w Hpending)
    as (Hlogs & Hacts & _ & _ & Hcalls).
  destruct (handleStarAction_spec user email (S (length (emailLogs w)))
              (before_dispatch env user email content analysis w) Hu Hm)
    as (_ & Hl & Ha & _ & _ & Hc).
  destruct (dispatched_activity user email content analysis w
              (world_after
                 (handleStarAction env user email (S (length (emailLogs w))))
                 (before_dispatch env user email content analysis w)) Hd)
    as (Hl' & Ha' & _ & Hk').
  fold w1 in Hlogs, Hacts, Hcalls, Hl, Ha, Hc, Hl', Ha', Hk' |- *.
  clearbody w1.
  rewrite Hl', Ha', Hk', Hl, Ha, Hc, Hlogs, Hacts, Hcalls, Hact, <- ?app_assoc.
  split; [done|]. split.
  - eexists. split; [reflexivity|]. cbn.
    by destruct (outcome_of (starEmail env user (email_id email)) w1).
  - eexists. split; [reflexivity|]. cbn. by rewrite Hact.
Qed.

(** The subject of a reply has U+0000 when the subject replied to has. *)
Lemma replySubject_text_ok s : text_ok (replySubject s) = text_ok s.
Proof.
  unfold replySubject. destruct (String.prefix "Re:" s); [done|].
  by rewrite text_ok_app.
Qed.

(** X11. A message classified [reply] whose reply is generated and sent:
    one mail is sent, to the sender of the message, with the reply
    subject and the generated text, and the [email_reply] activity is
    recorded.  The row written after the [pending] row is the [sent]
    row, which records that same subject and that same text; unless the
    text holds U+0000: the table refuses the [sent] row and the handler
    writes the [failed] row, though the mail has gone out.  The content
    of the message is read twice. *)
Theorem processEmail_reply_sent user email content analysis text w :
  dispatches env user email w content analysis ->
  an_action analysis = "reply" ->
  let w1 := before_dispatch env user email content analysis w in
  let from := content_from content in
  let body := content_body content in
  let subj := replySubject (content_subject content) in
  outcome_of (generateReply env user body from) w1 = Returns text ->
  outcome_of (sendEmail env user from subj text)
    (world_after (record_call (GetEmailContent (email_id email)))
       (world_after (record_call (GenerateReply user body from)) w1))
  = Returns tt ->
  let w' := world_after (processEmail env user email) w in
  calls w' = calls w ++ [GetEmailContent (email_id email);
                         AnalyzeEmail user body;
                         GenerateReply user body from;
                         GetEmailContent (email_id email);
                         SendEmail user from subj text] /\
  (exists t : EmailLog,
      emailLogs w'
      = emailLogs w ++ [pending_row user email content "reply" w; t] /\
      log_fields t = if has_NUL text then reply_failed user email from
                     else reply_sent user email from subj text) /\
  exists a : Activity,
    activities w' = activities w ++ [a] /\
    act_type a = "email_reply" /\
    description a = "Email replied to: " +:+ content_subject content.
Proof.
  intros Hd Hact w1 from body subj Hgen Hsend w'. unfold w'.
  rewrite (processEmail_reply_world _ _ _ _ _ Hd Hact).
  pose proof (dispatches_accepted _ _ _ _ _ Hd) as Hpending.
  destruct (pending_accepted _ _ _ _ Hpending) as (Hu & Hm & Hf & Hs & _).
  destruct (before_dispatch_spec user email content analysis w Hpending)
    as (Hlogs & Hacts & _ & _ & Hcalls).
  pose proof Hd as (_ & Hcontent & _).
  destruct (dispatched_activity user email content analysis w
              (world_after
                 (handleReplyAction env user email (S (length (emailLogs w)))
                    (content_from content) (content_body content))
                 (before_dispatch env user email content analysis w)) Hd)
    as (Hl' & Ha' & _ & Hk').
  rewrite Hl', Ha', Hk'.
  rewrite (handleReplyAction_spec _ _ _ _ _ _ _ Hcontent).
  fold w1 from body subj in Hlogs, Hacts, Hcalls |- *.
  rewrite Hgen. cbv zeta. fold subj. rewrite Hsend.
  assert (Hsent : email_logs_accepts (reply_sent user email from subj text)
                  = negb (has_NUL text)).
  { unfold email_logs_accepts, reply_sent. cbn.
    fold (text_ok text). unfold subj. rewrite replySubject_text_ok.
    unfold from. by rewrite Hu, Hm, Hf, Hs, andb_true_r. }
  rewrite Hsent.
  set (w3 := world_after (record_call (SendEmail user from subj text)) _).
  assert (Hw3 : emailLogs w3 = emailLogs w1 /\ activities w3 = activities w1 /\
                calls w3 = calls w1 ++ [GenerateReply user body from;
                                        GetEmailContent (email_id email);
                                        SendEmail user from subj text]).
  { unfold w3. cbn. by rewrite <- !app_assoc. }
  destruct Hw3 as (Hl3 & Ha3 & Hk3). clearbody w3 w1.
  assert (Hrow : forall log : InsertEmailLog,
            email_logs_accepts log = true ->
            let w4 := world_after (insertEmailLog log) w3 in
            calls w4 = calls w ++ [GetEmailContent (email_id email);
                                   AnalyzeEmail user body;
                                   GenerateReply user body from;
                                   GetEmailContent (email_id email);
                                   SendEmail user from subj text] /\
            (exists t : EmailLog,
                emailLogs w4
                = emailLogs w ++ [pending_row user email content "reply" w; t] /\
                log_fields t = log) /\
            exists a : Activity,
              activities w4 ++ [activity_row (activity_of user content analysis) w4]
              = activities w ++ [a] /\
              act_type a = "email_reply" /\
              description a = "Email replied to: " +:+ content_subject content).
  { intros log Hok w4.
    destruct (insertEmailLog_spec log w3 Hok) as (_ & Hl & Ha & _ & _ & Hk).
    fold w4 in Hl, Ha, Hk.
    rewrite Hl, Ha, Hk, Hl3, Ha3, Hk3, Hlogs, Hacts, Hcalls, Hact, <- ?app_assoc.
    split; [done|]. split; [by eexists|].
    eexists. split; [reflexivity|]. cbn. by rewrite Hact. }
  destruct (has_NUL text); cbn [negb]; cbv iota.
  - by apply Hrow, reply_failed_accepted.
  - apply Hrow. by rewrite Hsent.
Qed.

(** X12. A message that was dispatched is not processed twice in a row:
    run again at once on the world the first run left, [processEmail]
    finds its row and changes nothing, whatever the action was and
    however the handler ended. *)
Theorem processEmail_twice user email content analysis w :
  chronological w ->
  dispatches env user email w content analysis ->
  let w' := world_after (processEmail env user email) w in
  processEmail env user email w' = (w', Returns tt).
Proof.
  intros Hw Hd w'.
  assert (Hw' : chronological w') by by apply processEmail_chronological.
  destruct (processEmail_rows user email content analysis w Hd)
    as (terminal & Hl & Hterm & Hlen & _ & _).
  fold w' in Hl.
  eapply processEmail_skips.
  { unfold outcome_of. by rewrite (getUserEmailLogs_latest user w' Hw'). }
  unfold rows_of. rewrite Hl, List.filter_app. cbn [List.filter].
  change (userId (pending_row user email content (an_action analysis) w))
    with user.
  rewrite String.eqb_refl, rev_app_distr.
  destruct terminal as [|t [|t' terminal]];
    [| | by repeat case_match].
  - cbn. by rewrite String.eqb_refl.
  - apply Forall_inv in Hterm as (Hu & Hm & _). cbn [List.filter].
    rewrite Hu, String.eqb_refl. cbn. by rewrite Hm, String.eqb_refl.
Qed.

(** X13. A message with a row of the user in the log after which fewer
    than 50 rows of the user were written is skipped: [processEmail]
    returns, with no call and no write. *)
Theorem processEmail_skips_recent user email older row newer w :
  chronological w ->
  emailLogs w = older ++ row :: newer ->
  userId row = user ->
  emailId row = email_id email ->
  length (logs_of user newer) < 50 ->
  processEmail env user email w = (w, Returns tt).
Proof.
  intros Hw Hlog Hu Hm Hrecent.
  eapply processEmail_skips.
  { unfold outcome_of. by rewrite (getUserEmailLogs_latest user w Hw). }
  unfold rows_of. rewrite Hlog, List.filter_app. cbn [List.filter].
  rewrite Hu, String.eqb_refl, rev_app_distr. cbn [rev]. rewrite <- app_assoc.
  fold (logs_of user newer).
  unfold alreadyProcessed. apply existsb_exists. exists row.
  split; [|by rewrite Hm, String.eqb_refl].
  apply list_elem_of_In. rewrite take_app_ge by (rewrite length_rev; lia).
  apply elem_of_app. right.
  destruct (50 - length (rev (logs_of user newer))) as [|k] eqn:Hk;
    [rewrite length_rev in Hk; lia|].
  cbn. by left.
Qed.

(** X14. The statistics count rows, not messages: a message classified
    [reply] adds two to the mails counted as processed and two to the
    replies, one classified [star] two to the processed and two to the
    stars, and any other one to the processed only. *)
Theorem getUserStats_counts_rows percent user email content analysis w :
  dispatches env user email w content analysis ->
  let w' := world_after (processEmail env user email) w in
  let named a := String.eqb (an_action analysis) a in
  exists before after,
    outcome_of (getUserStats percent user) w = Returns before /\
    outcome_of (getUserStats percent user) w' = Returns after /\
    emailsProcessed after
    = emailsProcessed before + (if named "reply" || named "star" then 2 else 1) /\
    autoReplies after = autoReplies before + (if named "reply" then 2 else 0) /\
    starredEmails after = starredEmails before + (if named "star" then 2 else 0).
Proof.
  intros Hd w' named.
  destruct (processEmail_rows user email content analysis w Hd)
    as (terminal & Hl & Hterm & Hlen & _ & _).
  fold w' in Hl. eexists. eexists. split; [reflexivity|].
  split; [reflexivity|]. cbn.
  fold (logs_of user (emailLogs w)). fold (logs_of user (emailLogs w')).
  set (new := pending_row user email content (an_action analysis) w :: terminal).
  assert (Hown : Forall (fun r : EmailLog => userId r = user) new).
  { constructor; [done|]. eapply Forall_impl; [exact Hterm|].
    by intros r (? & _). }
  assert (Hact : Forall (fun r : EmailLog => action r = an_action analysis) new).
  { constructor; [done|]. eapply Forall_impl; [exact Hterm|].
    by intros r (_ & _ & ? & _). }
  assert (Hnew : length new = if named "reply" || named "star" then 2 else 1).
  { unfold new, named. cbn. rewrite Hlen. by repeat case_match. }
  rewrite Hl. fold new. rewrite logs_of_app, (logs_of_own user new Hown).
  rewrite !with_action_app, !length_app, Hnew.
  split; [done|]. unfold named in *.
  destruct (String.eqb (an_action analysis) "reply") eqn:Hr.
  - apply String.eqb_eq in Hr. rewrite Hr in *. cbn [orb String.eqb] in *.
    rewrite (with_action_same "reply" new Hact).
    rewrite (with_action_other "star" "reply" new) by done.
    cbn. lia.
  - apply String.eqb_neq in Hr.
    rewrite (with_action_other "reply" _ new) by done.
    destruct (String.eqb (an_action analysis) "star") eqn:Hs.
    + apply String.eqb_eq in Hs. rewrite Hs in Hact.
      rewrite (with_action_same "star" new Hact). cbn. cbn in Hnew. lia.
    + apply String.eqb_neq in Hs.
      rewrite (with_action_other "star" _ new) by done. cbn. lia.
Qed.

(** *** The two clients, call by call *)

Lemma or_default_nonempty s d : d <> "" -> or_default s d <> "".
Proof.
  intros Hd. unfold or_default. destruct s as [v|]; [|done].
  destruct (String.eqb v "") eqn:Hv; [done|]. by apply String.eqb_neq.
Qed.

(** X15. [generateReply]: it writes to no table; without a classifier
    key (none, or an empty one) it throws ['OpenAI API key not
    configured']; with a key it never throws and never answers an empty
    text: the text is the content of the completion, or the fallback
    sentence when the request rejects or the content is empty. *)
Theorem generateReply_outcome user body from credentials w :
  outcome_of (getUserCredentials user) w = Returns credentials ->
  let personal := or_default (credentials ≫= personalDescription) "a job seeker" in
  let resume := or_default (credentials ≫= resumeLink) "" in
  let completion := chat_text env (calls w ++ [GenerateReply user body from])
                              personal resume in
  world_after (generateReply env user body from) w
  = world_after (record_call (GenerateReply user body from)) w /\
  (truthy (credentials ≫= openaiApiKey) = false ->
   outcome_of (generateReply env user body from) w
   = Throws (Error "OpenAI API key not configured")) /\
  (truthy (credentials ≫= openaiApiKey) = true ->
   exists text,
     outcome_of (generateReply env user body from) w = Returns text /\
     text <> "" /\
     (completion = Some (Some text) \/ text = fallback_reply)).
Proof.
  intros Hcred personal resume completion.
  split; [apply generateReply_world|].
  assert (Hout : outcome_of (generateReply env user body from) w
                 = if negb (truthy (credentials ≫= openaiApiKey))
                   then Throws (Error "OpenAI API key not configured")
                   else match completion with
                        | Some content => Returns (or_default content fallback_reply)
                        | None => Returns fallback_reply
                        end).
  { unfold generateReply. run.
    change (outcome_of (record_call ?c) ?w0) with (@Returns unit tt). run.
    change (outcome_of (getUserCredentials user) (world_after (record_call ?c) w))
      with (outcome_of (getUserCredentials user) w).
    rewrite Hcred. run.
    destruct (negb (truthy (credentials ≫= openaiApiKey))); [done|].
    unfold outcome_of. cbn. fold personal resume completion.
    by destruct completion. }
  rewrite Hout. split; intros ->; cbn; [done|].
  destruct completion as [[text|]|] eqn:Hc; eexists; (split; [reflexivity|]).
  - split; [by apply or_default_nonempty|]. cbn.
    destruct (String.eqb text ""); [by right | by left].
  - split; [done | by right].
  - split; [done | by right].
Qed.

(** X16. [analyzeEmail]: it writes to no table; without a classifier key
    it throws ['OpenAI API key not configured'], before anything is
    asked of the classifier; with a key it never throws, the action and
    the reasoning it returns are never empty (a missing or empty action
    is ['ignore']), and the confidence is a number between 0 and 1 or
    [NaN].  It is [NaN] exactly when the raw confidence is truthy and
    converts to [NaN] (a string that is no number, an object, an array
    that is no number); it is between 0 and 1 when the raw confidence is
    missing, [null], a boolean or a number; and when the raw confidence
    cannot be converted (an object with a property [toString]) the
    answer is that of a failed request. *)
Theorem analyzeEmail_outcome user body credentials w :
  outcome_of (getUserCredentials user) w = Returns credentials ->
  let completion := chat_json env (calls w ++ [AnalyzeEmail user body]) in
  world_after (analyzeEmail env user body) w
  = world_after (record_call (AnalyzeEmail user body)) w /\
  (truthy (credentials ≫= openaiApiKey) = false ->
   outcome_of (analyzeEmail env user body) w
   = Throws (Error "OpenAI API key not configured")) /\
  (truthy (credentials ≫= openaiApiKey) = true ->
   exists a,
     outcome_of (analyzeEmail env user body) w = Returns a /\
     an_action a <> "" /\
     an_reasoning a <> "" /\
     (an_confidence a = NaN \/ in_unit_interval (an_confidence a)) /\
     (completion = None -> a = analysis_error) /\
     (forall raw, completion = Some raw ->
        (raw_action raw = None \/ raw_action raw = Some "" ->
         an_action a = "ignore") /\
        (ToNumber (raw_confidence raw) = None -> a = analysis_error) /\
        (an_confidence a = NaN <->
         ToBoolean (raw_confidence raw) = true /\
         ToNumber (raw_confidence raw) = Some NaN) /\
        (plain (raw_confidence raw) -> in_unit_interval (an_confidence a)))).
Proof.
  intros Hcred completion. split; [apply analyzeEmail_world|].
  assert (Hout : outcome_of (analyzeEmail env user body) w
                 = if negb (truthy (credentials ≫= openaiApiKey))
                   then Throws (Error "OpenAI API key not configured")
                   else match completion with
                        | Some result =>
                            match clampConfidence (raw_confidence result) with
                            | Some confidence =>
                                Returns
                                  {| an_action := or_default (raw_action result) "ignore";
                                     an_confidence := confidence;
                                     an_reasoning := or_default (raw_reasoning result)
                                                       "No reasoning provided" |}
                            | None => Returns analysis_error
                            end
                        | None => Returns analysis_error
                        end).
  { unfold analyzeEmail. run.
    change (outcome_of (record_call ?c) ?w0) with (@Returns unit tt). run.
    change (outcome_of (getUserCredentials user) (world_after (record_call ?c) w))
      with (outcome_of (getUserCredentials user) w).
    rewrite Hcred. run.
    destruct (negb (truthy (credentials ≫= openaiApiKey))); [done|].
    unfold outcome_of. cbn. fold completion.
    destruct completion as [result|]; [|done].
    by destruct (clampConfidence (raw_confidence result)). }
  rewrite Hout. split; intros ->; cbn [negb]; [done|].
  assert (Hzero : in_unit_interval zero)
    by (unfold zero; cbn; split; unfold Qle; cbn; lia).
  destruct completion as [raw|].
  - destruct (clampConfidence (raw_confidence raw)) as [c|] eqn:Hc.
    + eexists. split; [reflexivity|]. cbn.
      split; [by apply or_default_nonempty|].
      split; [by apply or_default_nonempty|].
      split; [by eapply clampConfidence_range|]. split; [done|].
      intros raw' [= <-]. split; [by intros [-> | ->]|].
      split; [intros Hno%clampConfidence_throws; congruence|].
      split; [by apply clampConfidence_NaN|].
      intros Hplain.
      destruct (clampConfidence_numbers _ Hplain) as (c' & Hc' & Hin).
      congruence.
    + exists analysis_error. split; [reflexivity|]. cbn.
      split; [done|]. split; [done|]. split; [by right|]. split; [done|].
      intros raw' [= <-]. split; [done|]. split; [done|]. split.
      * split; [done|]. intros [_ Hn].
        apply clampConfidence_throws in Hc. congruence.
      * intros Hplain.
        destruct (clampConfidence_numbers _ Hplain) as (c' & Hc' & Hin).
        congruence.
  - exists analysis_error. split; [reflexivity|]. cbn.
    split; [done|]. split; [done|]. split; [by right|]. split; [done|]. done.
Qed.

(** X17. The three calls to Gmail that need the user's token, for a user
    without one (no credentials, no token, or an empty token): each
    throws ['Gmail not connected'] whatever the Gmail API would have
    answered.  With a token, what each gives is what the API answers. *)
Theorem gmail_calls_need_token user credentials w :
  outcome_of (getUserCredentials user) w = Returns credentials ->
  (truthy (credentials ≫= gmailAccessToken) = false ->
   (forall query n, outcome_of (getEmails env user query n) w
                    = Throws (Error "Gmail not connected")) /\
   (forall to subj body, outcome_of (sendEmail env user to subj body) w
                         = Throws (Error "Gmail not connected")) /\
   (forall message, outcome_of (starEmail env user message) w
                    = Throws (Error "Gmail not connected"))) /\
  (truthy (credentials ≫= gmailAccessToken) = true ->
   (forall query n,
      outcome_of (getEmails env user query n) w
      = match messages_list env (calls w ++ [GetEmails user query n]) with
        | Some emails => Returns emails
        | None => Throws ApiError
        end) /\
   (forall to subj body,
      outcome_of (sendEmail env user to subj body) w
      = if messages_send env (calls w ++ [SendEmail user to subj body])
        then Returns tt else Throws ApiError) /\
   (forall message,
      outcome_of (starEmail env user message) w
      = if messages_modify env (calls w ++ [StarEmail user message])
        then Returns tt else Throws ApiError)).
Proof.
  intros Hcred.
  assert (Hauth : forall c,
            outcome_of (getAuthenticatedClient user)
                       (world_after (record_call c) w)
            = if truthy (credentials ≫= gmailAccessToken) then Returns tt
              else Throws (Error "Gmail not connected")).
  { intros c. unfold getAuthenticatedClient. run.
    change (outcome_of (getUserCredentials user) (world_after (record_call c) w))
      with (outcome_of (getUserCredentials user) w).
    rewrite Hcred. cbv beta iota.
    by destruct (truthy (credentials ≫= gmailAccessToken)). }
  assert (Hworld : forall c,
            world_after (getAuthenticatedClient user)
                        (world_after (record_call c) w)
            = world_after (record_call c) w)
    by (intros c; apply getAuthenticatedClient_world).
  split; intros Htoken; (split; [|split]); intros;
    unfold getEmails, sendEmail, starEmail; run;
    change (outcome_of (record_call ?c) ?w0) with (@Returns unit tt); run;
    rewrite Hauth, Htoken; cbv beta iota; try done;
    rewrite Hworld; unfold outcome_of; cbn;
    first [by destruct (messages_list env _)
          |by destruct (messages_send env _)
          |by destruct (messages_modify env _)].
Qed.

(** X18. The body [getEmailContent] extracts from a message with
    headers and no data in the payload's own body.  With parts, it is
    the decoding of the first part of type [text/plain] that has data,
    whatever comes after it; parts of another type, or without data, are
    passed over, and when no part qualifies (an HTML-only message) or
    there are no parts the body is empty. *)
Theorem extract_content_parts email pl hs :
  payload email = Some pl ->
  headers pl = Some hs ->
  truthy (body_data pl) = false ->
  let passed_over (q : Part) :=
    String.eqb (mimeType q) "text/plain" && truthy (part_data q) = false in
  (forall before p data after,
     parts pl = Some (before ++ p :: after) ->
     Forall passed_over before ->
     mimeType p = "text/plain" -> part_data p = Some data -> data <> "" ->
     exists content,
       extract_content env email = Some content /\
       content_body content = base64_toString env data) /\
  (parts pl = None \/ (exists ps, parts pl = Some ps /\ Forall passed_over ps) ->
   exists content,
     extract_content env email = Some content /\ content_body content = "").
Proof.
  intros Hpl Hhs Hbody passed_over.
  assert (Hskip : forall before rest,
            Forall passed_over before ->
            first_plain_part env (before ++ rest) = first_plain_part env rest).
  { intros before rest Hb. induction Hb as [|q qs Hq _ IH]; [done|].
    cbn. unfold passed_over in Hq. by rewrite Hq. }
  split.
  - intros before p data after Hparts Hbefore Hmime Hdata Hne.
    eexists. unfold extract_content. rewrite Hpl, Hhs, Hbody, Hparts.
    split; [reflexivity|]. cbn [content_body].
    rewrite (Hskip _ _ Hbefore). cbn. rewrite Hmime, Hdata. cbn.
    apply String.eqb_neq in Hne. by rewrite Hne.
  - intros Hnone. eexists. unfold extract_content. rewrite Hpl, Hhs, Hbody.
    split; [reflexivity|]. cbn [content_body].
    destruct Hnone as [-> | (ps & -> & Hps)]; [done|].
    rewrite <- (app_nil_r ps). by rewrite (Hskip _ _ Hps).
Qed.

(** *** The shape of the log *)






End PipelineFacts.

(** ** The claims at concrete worlds *)

Lemma processNewEmails_inactive_witness :
  outcome_of (getUserCredentials "bob") fresh_world = Returns None /\
  processNewEmails env_day "bob" fresh_world = (fresh_world, Returns tt).
Proof.
  split; [reflexivity|].
  apply (processNewEmails_inactive env_day "bob" None fresh_world).
  - reflexivity.
  - left. reflexivity.
Defined.

Lemma opening_dispatched env :
  chat_json env = (fun _ => Some (answer (JSNum (Finite (9 # 10))))) ->
  base64_toString env = (fun s => s) ->
  dispatches env "alice" opening fresh_world opening_content opening_analysis.
Proof.
  intros Hjson Hb64. split; [by eexists|]. split; [done|]. split.
  - unfold outcome_of, analyzeEmail, bind. cbn. by rewrite Hjson.
  - by apply insertEmailLog_resolves.
Qed.

Lemma processEmail_one_terminal_one_activity_witness :
  dispatches (env_confidence (JSNum (Finite (9 # 10)))) "alice" opening
             fresh_world opening_content opening_analysis /\
  exists (terminal : EmailLog) (activity : Activity),
    emailLogs (world_after
                 (processEmail (env_confidence (JSNum (Finite (9 # 10))))
                               "alice" opening) fresh_world)
    = [pending_row "alice" opening opening_content "reply" fresh_world;
       terminal] /\
    terminal_row "alice" opening "reply" terminal /\
    activities (world_after
                  (processEmail (env_confidence (JSNum (Finite (9 # 10))))
                                "alice" opening) fresh_world)
    = [activity].
Proof.
  assert (Hd : dispatches (env_confidence (JSNum (Finite (9 # 10)))) "alice"
                 opening fresh_world opening_content opening_analysis)
    by (apply opening_dispatched; reflexivity).
  split; [exact Hd|].
  destruct (processEmail_one_terminal_one_activity
              (env_confidence (JSNum (Finite (9 # 10)))) "alice" opening
              opening_content opening_analysis fresh_world Hd
              (or_introl eq_refl))
    as (terminal & activity & Hlogs & _ & Hterminal & Hacts & _).
  exists terminal, activity. split; [exact Hlogs|].
  split; [exact Hterminal | exact Hacts].
Defined.



(** C8, as it is stated, fails. The subject [Re:hello] does not begin
    with ["Re: "], and the handler sends with [Re:hello], not with
    [Re: Re:hello]. *)
Lemma reply_subject_without_space :
  let env := env_confidence (JSNum (Finite (9 # 10))) in
  let w' := world_after (processEmail env "alice" threaded) fresh_world in
  String.prefix "Re: " "Re:hello" = false /\
  ~ begins_with "Re: " "Re:hello" /\
  last (calls w')
  = Some (SendEmail "alice" "hr@corp.example" "Re:hello" resume_reply) /\
  "Re:hello" <> "Re: " +:+ "Re:hello".
Proof.
  split; [reflexivity|]. split; [|split; [reflexivity | discriminate]].
  intros H%prefix_begins_with. discriminate.
Qed.

Lemma reply_subject_prefix_witness :
  let env := env_confidence (JSNum (Finite (9 # 10))) in
  extract_content env threaded
  = Some {| content_from := "hr@corp.example"; content_subject := "Re:hello";
            content_body := "" |} /\
  outcome_of (generateReply env "alice" "" "hr@corp.example") fresh_world
  = Returns resume_reply /\
  exists subj,
    calls (world_after
             (handleReplyAction env "alice" threaded 1 "hr@corp.example" "")
             fresh_world)
    = [GenerateReply "alice" "" "hr@corp.example"; GetEmailContent "m1";
       SendEmail "alice" "hr@corp.example" subj resume_reply] /\
    (begins_with "Re:" "Re:hello" -> subj = "Re:hello").
Proof.
  intros env. split; [reflexivity|]. split; [reflexivity|].
  destruct (reply_subject_prefix env "alice" threaded 1 "hr@corp.example" ""
              {| content_from := "hr@corp.example";
                 content_subject := "Re:hello"; content_body := "" |}
              resume_reply fresh_world eq_refl eq_refl)
    as (subj & Hcalls & Hyes & _).
  exists subj. split; [exact Hcalls | exact Hyes].
Defined.

Lemma analysis_failure_marks_processed_witness :
  let env := env_classifier_down in
  let w' := world_after (processEmail env "alice" opening) fresh_world in
  chronological fresh_world /\
  emailLogs w'
  = [pending_row "alice" opening opening_content "ignore" fresh_world] /\
  processEmail env "alice" opening w' = (w', Returns tt).
Proof.
  intros env w'.
  destruct (analysis_failure_marks_processed env "alice" opening
              opening_content (Some alice) fresh_world)
    as (_ & Hlogs & _ & Hagain).
  - reflexivity.
  - eexists. split; reflexivity.
  - reflexivity.
  - reflexivity.
  - reflexivity.
  - reflexivity.
  - reflexivity.
  - split; [reflexivity|]. split; [exact Hlogs | exact Hagain].
Defined.

(** A batch whose first message has no payload: extracting its content
    throws, [processEmail] logs the error, and the second message is
    processed. *)
Example failure_then_success :
  let env := env_confidence (JSNum (Finite (9 # 10))) in
  let broken := {| email_id := "broken"; payload := None |} in
  outcome_of (processEmail_body env "alice" broken) fresh_world
  = Throws TypeError /\
  map (fun r : EmailLog => (emailId r, status r))
      (emailLogs (world_after (forEachEmail env "alice" [broken; opening])
                              fresh_world))
  = [("m0", "pending"); ("m0", "sent")].
Proof. split; reflexivity. Qed.

(** A message the check finds among the 50 latest rows of the user is
    not processed again. *)
Lemma processEmail_idempotent_latest env user email w :
  chronological w ->
  alreadyProcessed (take 50 (rows_of user w)) email = true ->
  processEmail env user email w = (w, Returns tt).
Proof.
  intros Hw Hfound. eapply processEmail_skips; [|exact Hfound].
  unfold outcome_of. by rewrite (getUserEmailLogs_latest user w Hw).
Qed.

(** C1 (the code departs from it). Five runs of the pipeline for Alice.
    The first processes [opening] and replies; the next three process 25
    other messages, two rows each.  Before the fifth run the log holds 52
    rows, the two oldest are those of [opening], and [opening], still
    unread, is fetched again: the check reads the 50 latest rows, does
    not find it, and the run writes two more rows and one more activity
    for it and sends a second reply. *)
Theorem processEmail_repeats_logged_message :
  let before := after_runs env_day 4 in
  let after := world_after (processNewEmails env_day "alice") before in
  messages_list env_day
    (calls before ++ [GetEmails "alice" "is:unread newer_than:1d" 10])
  = Some [opening] /\
  map (fun r : EmailLog => (userId r, emailId r, status r))
      (rows_for "m0" (emailLogs before))
  = [("alice", "m0", "pending"); ("alice", "m0", "sent")] /\
  length (emailLogs before) = 52 /\
  map (fun r : EmailLog => (userId r, emailId r, status r))
      (drop 52 (emailLogs after))
  = [("alice", "m0", "pending"); ("alice", "m0", "sent")] /\
  length (activities after) = S (length (activities before)) /\
  length (sends_to "hr@corp.example" (calls before)) = 1 /\
  length (sends_to "hr@corp.example" (calls after)) = 2.
Proof. vm_compute. repeat split. Qed.

(** C10 (the code departs from it). The day of [env_recovering]: in the
    first run the request of the classifier fails on [opening];
    [analyzeEmail] returns [ignore] and the run leaves the [pending] row
    with action [ignore] and the [email_ignore] activity.  Three runs and
    50 rows later [opening] is fetched again: the check reads the 50
    latest rows, the row of the first run is the 51st, and the message is
    processed again, this time classified [reply] and answered.  The
    mark was not permanent. *)
Theorem failed_analysis_processed_again :
  let env := env_recovering in
  let first := after_runs env 1 in
  let before := after_runs env 4 in
  let after := world_after (processNewEmails env "alice") before in
  chat_json env [GetEmails "alice" "is:unread newer_than:1d" 10;
                 GetEmailContent "m0"; AnalyzeEmail "alice" ""] = None /\
  map (fun r : EmailLog => (emailId r, action r, status r)) (emailLogs first)
  = [("m0", "ignore", "pending")] /\
  map (fun a : Activity => act_type a) (activities first) = ["email_ignore"] /\
  map (fun r : EmailLog => (emailId r, action r, status r))
      (rows_for "m0" (emailLogs before))
  = [("m0", "ignore", "pending")] /\
  length (emailLogs before) = 51 /\
  map (fun r : EmailLog => (emailId r, action r, status r))
      (drop 51 (emailLogs after))
  = [("m0", "reply", "pending"); ("m0", "reply", "sent")] /\
  length (sends_to "hr@corp.example" (calls after)) = 1.
Proof. vm_compute. repeat split. Qed.

(** * More of the code *)

(** ** The queries of the sink *)

Lemma insert_desc_perm r l : insert_desc r l ≡ₚ r :: l.
Proof.
  induction l as [|x l IH]; [done|].
  change (insert_desc r (x :: l))
    with (if (createdAt x <? createdAt r)%nat then r :: x :: l
          else x :: insert_desc r l).
  destruct (createdAt x <? createdAt r)%nat; [done|].
  rewrite IH. apply Permutation_swap.
Qed.

Lemma orderBy_desc_perm l : orderBy_desc_createdAt l ≡ₚ l.
Proof.
  induction l as [|x l IH]; [done|]. cbn.
  change (fold_right insert_desc [] l) with (orderBy_desc_createdAt l).
  by rewrite insert_desc_perm, IH.
Qed.

Lemma insert_desc_latest_first r l :
  latest_first l -> latest_first (insert_desc r l).
Proof.
  unfold latest_first. induction l as [|x l IH]; intros Hl.
  - repeat constructor.
  - change (insert_desc r (x :: l))
      with (if (createdAt x <? createdAt r)%nat then r :: x :: l
            else x :: insert_desc r l).
    apply StronglySorted_inv in Hl as [Hl Hx].
    destruct (createdAt x <? createdAt r)%nat eqn:Hlt.
    + apply Nat.ltb_lt in Hlt. constructor; [by constructor|].
      constructor; [lia|]. eapply Forall_impl; [exact Hx|].
      intros y Hy. cbn in Hy. lia.
    + apply Nat.ltb_ge in Hlt. constructor; [by apply IH|].
      rewrite insert_desc_perm. by constructor.
Qed.

Lemma orderBy_desc_latest_first l : latest_first (orderBy_desc_createdAt l).
Proof.
  induction l as [|x l IH]; [constructor|].
  by apply insert_desc_latest_first.
Qed.

Lemma latest_first_take n l : latest_first l -> latest_first (take n l).
Proof.
  unfold latest_first. revert n. induction l as [|x l IH]; intros [|n] Hl;
    try constructor.
  - apply IH. by apply StronglySorted_inv in Hl as [? _].
  - apply StronglySorted_inv in Hl as [_ Hx].
    eapply Forall_forall. intros y Hy. eapply Forall_forall in Hx; [exact Hx|].
    eapply subseteq_take, Hy.
Qed.

(** X1. What [getUserEmailLogs] gives, in any world: it writes nothing;
    the rows returned are rows of the log, all of the user, no more than
    [limit] (50 when none is given), latest first; and when the user has
    no more than [limit] rows, they are all returned. *)
Theorem getUserEmailLogs_result user limit w :
  exists logs,
    getUserEmailLogs user limit w = (w, Returns logs) /\
    length logs <= default 50 limit /\
    (forall r, In r logs -> In r (emailLogs w) /\ userId r = user) /\
    latest_first logs /\
    (length (logs_of user (emailLogs w)) <= default 50 limit ->
     logs ≡ₚ logs_of user (emailLogs w)).
Proof.
  eexists. split; [reflexivity|].
  fold (logs_of user (emailLogs w)).
  set (mine := logs_of user (emailLogs w)).
  split; [rewrite length_take; lia|]. split; [|split].
  - intros r Hr%list_elem_of_In. apply subseteq_take in Hr.
    rewrite orderBy_desc_perm in Hr. apply list_elem_of_In in Hr.
    apply filter_In in Hr as [Hin Hu]. split; [done|].
    by apply String.eqb_eq.
  - apply latest_first_take, orderBy_desc_latest_first.
  - intros Hfew. rewrite take_ge; [apply orderBy_desc_perm|].
    by rewrite orderBy_desc_perm.
Qed.

Lemma chronological_from_NoDup t l now :
  chronological_from t l now = true -> NoDup l.
Proof.
  revert t. induction l as [|r l IH]; intros t; [constructor|].
  cbn. intros [_ Hl]%andb_prop. constructor; [|by eapply IH].
  intros Hr%list_elem_of_In.
  pose proof (chronological_from_bound _ _ _ _ Hl Hr). lia.
Qed.

Lemma getUserEmailLogs_chronological user limit w :
  chronological w ->
  getUserEmailLogs user limit w
  = (w, Returns (take (default 50 limit) (rows_of user w))).
Proof.
  intros Hw. unfold getUserEmailLogs, rows_of. cbn. do 3 f_equal.
  eapply orderBy_desc_chronological, chronological_from_filter, Hw.
Qed.

(** X2. The window of [getUserEmailLogs] on a log written by
    [insertEmailLog]: a row of the user is among the rows returned
    exactly when fewer than [limit] rows of the user were inserted after
    it. *)
Theorem getUserEmailLogs_window user limit w older row newer logs :
  chronological w ->
  emailLogs w = older ++ row :: newer ->
  userId row = user ->
  outcome_of (getUserEmailLogs user limit) w = Returns logs ->
  (In row logs <-> length (logs_of user newer) < default 50 limit).
Proof.
  intros Hw Hlog Hu Hlogs. unfold outcome_of in Hlogs.
  rewrite (getUserEmailLogs_chronological user limit w Hw) in Hlogs.
  cbn in Hlogs. injection Hlogs as <-.
  unfold rows_of. rewrite Hlog, List.filter_app. cbn.
  rewrite Hu, String.eqb_refl, rev_app_distr. cbn. rewrite <- app_assoc. cbn.
  fold (logs_of user newer). fold (logs_of user older).
  set (n := default 50 limit).
  assert (Hlen : length (rev (logs_of user newer)) = length (logs_of user newer))
    by apply length_rev.
  split.
  - intros Hin. destruct (decide (length (logs_of user newer) < n)); [done|].
    exfalso. rewrite take_app_le in Hin by lia.
    apply list_elem_of_In, subseteq_take, list_elem_of_In in Hin.
    apply in_rev, filter_In in Hin as [Hin _].
    apply chronological_from_NoDup in Hw. rewrite Hlog in Hw.
    apply NoDup_app in Hw as (_ & _ & Hnd). apply NoDup_cons in Hnd as [Hnot _].
    by apply Hnot, list_elem_of_In.
  - intros Hlt. apply list_elem_of_In.
    rewrite take_app_ge by lia. apply elem_of_app. right.
    destruct (n - length (rev (logs_of user newer))) as [|k] eqn:Hk; [lia|].
    cbn. by left.
Qed.

Lemma getUserEmailLogs_window_witness :
  let w := world_after (processEmail (env_confidence (JSNum (Finite (9 # 10))))
                          "alice" opening) fresh_world in
  chronological w /\
  (In (pending_row "alice" opening opening_content "reply" fresh_world)
      (take 50 (rows_of "alice" w)) <-> 1 < 50).
Proof.
  intros w.
  assert (Hw : chronological w) by reflexivity.
  split; [exact Hw|].
  apply (getUserEmailLogs_window "alice" None w []
           (pending_row "alice" opening opening_content "reply" fresh_world)
           (drop 1 (emailLogs w)) _ Hw).
  - reflexivity.
  - reflexivity.
  - unfold outcome_of.
    by rewrite (getUserEmailLogs_chronological "alice" None w Hw).
Defined.

Lemma insert_desc_activity_perm r l : insert_desc_activity r l ≡ₚ r :: l.
Proof.
  induction l as [|x l IH]; [done|].
  change (insert_desc_activity r (x :: l))
    with (if (act_createdAt x <? act_createdAt r)%nat then r :: x :: l
          else x :: insert_desc_activity r l).
  destruct (act_createdAt x <? act_createdAt r)%nat; [done|].
  rewrite IH. apply Permutation_swap.
Qed.

Lemma sort_activities_perm l : fold_right insert_desc_activity [] l ≡ₚ l.
Proof.
  induction l as [|x l IH]; [done|]. cbn.
  by rewrite insert_desc_activity_perm, IH.
Qed.

Lemma insert_desc_activity_latest_first r l :
  latest_first_activities l ->
  latest_first_activities (insert_desc_activity r l).
Proof.
  unfold latest_first_activities. induction l as [|x l IH]; intros Hl.
  - repeat constructor.
  - change (insert_desc_activity r (x :: l))
      with (if (act_createdAt x <? act_createdAt r)%nat then r :: x :: l
            else x :: insert_desc_activity r l).
    apply StronglySorted_inv in Hl as [Hl Hx].
    destruct (act_createdAt x <? act_createdAt r)%nat eqn:Hlt.
    + apply Nat.ltb_lt in Hlt. constructor; [by constructor|].
      constructor; [lia|]. eapply Forall_impl; [exact Hx|].
      intros y Hy. cbn in Hy. lia.
    + apply Nat.ltb_ge in Hlt. constructor; [by apply IH|].
      rewrite insert_desc_activity_perm. by constructor.
Qed.

Lemma sort_activities_latest_first l :
  latest_first_activities (fold_right insert_desc_activity [] l).
Proof.
  induction l as [|x l IH]; [constructor|].
  by apply insert_desc_activity_latest_first.
Qed.

(** X3. What [getUserActivities] gives, in any world: it writes nothing;
    the activities returned are activities of the table, all of the
    user, no more than [limit] (10 when none is given), latest first; and
    when the user has no more than [limit] of them, all are returned. *)
Theorem getUserActivities_result user limit w :
  exists acts,
    getUserActivities user limit w = (w, Returns acts) /\
    length acts <= default 10 limit /\
    (forall a, In a acts -> In a (activities w) /\ act_userId a = user) /\
    latest_first_activities acts /\
    (length (activities_of user (activities w)) <= default 10 limit ->
     acts ≡ₚ activities_of user (activities w)).
Proof.
  eexists. split; [reflexivity|].
  fold (activities_of user (activities w)).
  set (mine := activities_of user (activities w)).
  split; [rewrite length_take; lia|]. split; [|split].
  - intros a Ha%list_elem_of_In. apply subseteq_take in Ha.
    rewrite sort_activities_perm in Ha. apply list_elem_of_In in Ha.
    apply filter_In in Ha as [Hin Hu]. split; [done|].
    by apply String.eqb_eq.
  - unfold latest_first_activities.
    assert (Hs := sort_activities_latest_first mine).
    unfold latest_first_activities in Hs.
    generalize dependent (fold_right insert_desc_activity [] mine).
    intros l Hl. revert l Hl. generalize (default 10 limit).
    intros n l. revert n. induction l as [|x l IH]; intros [|n] Hl;
      try constructor.
    + apply IH. by apply StronglySorted_inv in Hl as [? _].
    + apply StronglySorted_inv in Hl as [_ Hx].
      eapply Forall_forall. intros y Hy.
      eapply Forall_forall in Hx; [exact Hx|]. eapply subseteq_take, Hy.
  - intros Hfew. rewrite take_ge; [apply sort_activities_perm|].
    by rewrite sort_activities_perm.
Qed.

(** X24. The idempotency check is per user: rows that other users have
    for a message do not make it count as processed.  When no row of the
    user carries the id of the message, the check reads the log and does
    not find it. *)
Theorem alreadyProcessed_per_user user email w :
  (forall r : EmailLog,
     In r (emailLogs w) -> emailId r = email_id email -> userId r <> user) ->
  exists logs,
    outcome_of (getUserEmailLogs user None) w = Returns logs /\
    alreadyProcessed logs email = false.
Proof.
  intros Hothers. eexists. split; [reflexivity|].
  apply not_true_is_false. intros Hfound.
  apply existsb_exists in Hfound as (r & Hr & Hid).
  apply list_elem_of_In, subseteq_take in Hr.
  rewrite orderBy_desc_perm in Hr.
  apply list_elem_of_In, filter_In in Hr as [Hin Hu].
  apply String.eqb_eq in Hid, Hu. by apply (Hothers r).
Qed.

(** ** The statistics *)

Lemma with_action_disjoint logs :
  length (with_action "reply" logs) + length (with_action "star" logs)
  <= length logs.
Proof.
  unfold with_action. induction logs as [|r logs IH]; cbn; [done|].
  destruct (String.eqb (action r) "reply") eqn:Hr; cbn.
  - apply String.eqb_eq in Hr. rewrite Hr. cbn. lia.
  - destruct (String.eqb (action r) "star"); cbn; lia.
Qed.

(** X4. The statistics of a user, whatever the engine's rounding: they
    are computed from the rows of the user alone (the rows of other users
    do not count); the replies and the stars together are no more than
    the rows counted as processed; and a user without a row gets 0
    everywhere: the rate is not asked of a division by zero. *)
Theorem getUserStats_counts percent user w :
  exists stats,
    getUserStats percent user w = (w, Returns stats) /\
    emailsProcessed stats = length (logs_of user (emailLogs w)) /\
    autoReplies stats + starredEmails stats <= emailsProcessed stats /\
    (logs_of user (emailLogs w) = [] ->
     stats = {| emailsProcessed := 0; autoReplies := 0; starredEmails := 0;
                successRate := zero |}) /\
    (forall w', logs_of user (emailLogs w') = logs_of user (emailLogs w) ->
                outcome_of (getUserStats percent user) w' = Returns stats).
Proof.
  eexists. split; [reflexivity|]. cbn.
  fold (logs_of user (emailLogs w)).
  split; [done|]. split; [apply with_action_disjoint|]. split.
  - by intros ->.
  - intros w' Hsame. unfold outcome_of, getUserStats. cbn.
    fold (logs_of user (emailLogs w')). by rewrite Hsame.
Qed.

(** ** The scheduler, further *)

Lemma stopMonitoring_registry user s :
  monitoringIntervals (stopMonitoring user s)
  = delete user (monitoringIntervals s).
Proof.
  unfold stopMonitoring.
  destruct (monitoringIntervals s !! user) eqn:Hreg; [done|].
  by rewrite delete_id.
Qed.

Lemma stopMonitoring_nextHandle user s :
  nextHandle (stopMonitoring user s) = nextHandle s.
Proof. unfold stopMonitoring. by destruct (monitoringIntervals s !! user). Qed.

Lemma stopMonitoring_other user other s :
  consistent s -> other <> user ->
  forall h, runs_for (stopMonitoring user s) other h <-> runs_for s other h.
Proof.
  intros [Hbij _] Hne h. unfold runs_for, stopMonitoring.
  destruct (monitoringIntervals s !! user) as [h0|] eqn:Hreg; [|done].
  cbn. rewrite lookup_delete. case_decide; [|done]. subst h0.
  split; [done|]. intros Hh. apply Hbij in Hreg. congruence.
Qed.

Lemma register_other user other s :
  consistent s -> other <> user ->
  forall h, runs_for (Map_set user (nextHandle s) (snd (setInterval user s)))
                     other h
            <-> runs_for s other h.
Proof.
  intros [_ Hfresh] Hne h. unfold runs_for. cbn. rewrite lookup_insert.
  case_decide; [|done]. subst h. split; [congruence|].
  intros Hh. apply Hfresh in Hh. lia.
Qed.

(** X19. A start or a stop for one user leaves every other user alone,
    in any state the process can reach: the registration of another user
    is what it was, and the timers that run for another user are the
    same before and after. *)
Theorem scheduler_leaves_others env sys user other :
  reachable env sys ->
  other <> user ->
  let s := fst sys in
  (monitoringIntervals (stopMonitoring user s) !! other
   = monitoringIntervals s !! other /\
   forall h, runs_for (stopMonitoring user s) other h <-> runs_for s other h) /\
  (monitoringIntervals (startMonitoring_sync user s) !! other
   = monitoringIntervals s !! other /\
   forall h, runs_for (startMonitoring_sync user s) other h
             <-> runs_for s other h).
Proof.
  intros Hreach Hne s.
  pose proof (reachable_consistent env sys Hreach) as Hs. fold s in Hs.
  assert (Hstop : monitoringIntervals (stopMonitoring user s) !! other
                  = monitoringIntervals s !! other)
    by (rewrite stopMonitoring_registry; by apply lookup_delete_ne).
  split; [split; [done | by apply stopMonitoring_other]|].
  unfold startMonitoring_sync. cbn [setInterval fst snd]. split.
  - cbn. rewrite lookup_insert_ne by done. exact Hstop.
  - intros h. etrans; [|by apply stopMonitoring_other].
    apply (register_other user other (stopMonitoring user s)); [|done].
    by apply consistent_stopMonitoring.
Qed.

Lemma stop_all_registry users s :
  monitoringIntervals (foldr stopMonitoring s users)
  = foldr delete (monitoringIntervals s) users.
Proof.
  induction users as [|u users IH]; [done|]. cbn.
  by rewrite stopMonitoring_registry, IH.
Qed.

Lemma stop_all_consistent users s :
  consistent s -> consistent (foldr stopMonitoring s users).
Proof.
  intros Hs. induction users as [|u users IH]; [done|]. cbn.
  by apply consistent_stopMonitoring.
Qed.

Lemma lookup_foldr_delete (m : gmap string nat) users u :
  foldr delete m users !! u = if decide (u ∈ users) then None else m !! u.
Proof.
  induction users as [|v users IH]; cbn; [by rewrite decide_False by set_solver|].
  rewrite lookup_delete, IH. destruct (decide (v = u)) as [->|Hne].
  - by rewrite decide_True by set_solver.
  - destruct (decide (u ∈ users)).
    + by rewrite decide_True by set_solver.
    + rewrite decide_False; [done|].
      intros [?|?]%elem_of_cons; congruence.
Qed.

(** X20. No timer is ever left behind: in any state the process can
    reach, every timer that runs is the one registered for its user; so
    stopping every registered user stops every timer and empties the
    map. *)
Theorem scheduler_no_orphan_timer env sys :
  reachable env sys ->
  let s := fst sys in
  let stopped := foldr stopMonitoring s (elements (dom (monitoringIntervals s))) in
  (forall h user, runs_for s user h -> monitoringIntervals s !! user = Some h) /\
  monitoringIntervals stopped = ∅ /\
  intervals stopped = ∅.
Proof.
  intros Hreach s stopped.
  pose proof (reachable_consistent env sys Hreach) as Hs. fold s in Hs.
  split; [intros h user Hrun; by apply Hs|].
  assert (Hempty : monitoringIntervals stopped = ∅).
  { apply map_empty. intros u. unfold stopped.
    rewrite stop_all_registry, lookup_foldr_delete. case_decide as Hu; [done|].
    apply not_elem_of_dom. by rewrite <- elem_of_elements. }
  split; [done|].
  destruct (stop_all_consistent (elements (dom (monitoringIntervals s))) s Hs)
    as [Hbij _].
  fold stopped in Hbij. apply map_empty. intros h.
  destruct (intervals stopped !! h) as [u|] eqn:Hh; [|done].
  apply Hbij in Hh. by rewrite Hempty in Hh.
Qed.

(** X21. A start followed by a stop for the same user leaves the map and
    the timers as a stop alone would: the user is not registered and no
    timer runs for the user. *)
Theorem start_then_stop env sys user :
  reachable env sys ->
  let s := fst sys in
  let s' := stopMonitoring user (startMonitoring_sync user s) in
  monitoringIntervals s' = monitoringIntervals (stopMonitoring user s) /\
  intervals s' = intervals (stopMonitoring user s) /\
  monitoringIntervals s' !! user = None /\
  no_task s' user.
Proof.
  intros Hreach s s'.
  pose proof (reachable_consistent env sys Hreach) as Hs. fold s in Hs.
  assert (Hs1 : consistent (stopMonitoring user s))
    by by apply consistent_stopMonitoring.
  set (s1 := stopMonitoring user s) in *.
  assert (Hfree : monitoringIntervals s1 !! user = None)
    by apply unregistered_stopMonitoring.
  assert (Hfresh : intervals s1 !! nextHandle s1 = None).
  { destruct (intervals s1 !! nextHandle s1) as [u|] eqn:Hh; [|done].
    apply Hs1 in Hh. lia. }
  assert (Hs' : s' = Map_delete user
                       (clearInterval (nextHandle s1)
                          (startMonitoring_sync user s))).
  { unfold s', stopMonitoring at 1.
    assert (Hreg : monitoringIntervals (startMonitoring_sync user s) !! user
                   = Some (nextHandle s1)) by apply lookup_insert_eq.
    by rewrite Hreg. }
  assert (Hm : monitoringIntervals s' = monitoringIntervals s1).
  { rewrite Hs'. unfold startMonitoring_sync. cbn. fold s1.
    rewrite delete_insert_eq. by apply delete_id. }
  assert (Hi : intervals s' = intervals s1).
  { rewrite Hs'. unfold startMonitoring_sync. cbn. fold s1.
    rewrite delete_insert_eq. by apply delete_id. }
  split; [done|]. split; [done|]. split; [by rewrite Hm|].
  intros h. unfold runs_for. rewrite Hi.
  by apply (no_task_stopMonitoring s user Hs h).
Qed.



(** ** The further properties at concrete worlds *)

Lemma processNewEmails_fetch_fails_witness :
  outcome_of (getEmails env_gmail_down "alice" "is:unread newer_than:1d" 10)
             fresh_world = Throws ApiError /\
  emailLogs (world_after (processNewEmails env_gmail_down "alice") fresh_world)
  = [].
Proof.
  split; [reflexivity|].
  apply (processNewEmails_fetch_fails env_gmail_down "alice" alice ApiError
           fresh_world); reflexivity.
Defined.

Lemma processEmail_writes_nothing_witness :
  extract_content env_star broken = None /\
  emailLogs (world_after (processEmail env_star "alice" broken) fresh_world) = [].
Proof.
  split; [reflexivity|].
  apply (processEmail_writes_nothing env_star "alice" broken [] fresh_world).
  - reflexivity.
  - reflexivity.
  - left. reflexivity.
Defined.

Lemma opening_ignored :
  dispatches env_classifier_down "alice" opening fresh_world opening_content
             ignore_analysis.
Proof.
  split; [by eexists|]. split; [reflexivity|].
  split; [reflexivity | by apply insertEmailLog_resolves].
Qed.

Lemma opening_starred :
  dispatches env_star "alice" opening fresh_world opening_content star_analysis.
Proof.
  split; [by eexists|]. split; [reflexivity|].
  split; [reflexivity | by apply insertEmailLog_resolves].
Qed.

Lemma processEmail_row_refused_witness :
  let env := env_confidence (JSNum (Finite (9 # 10))) in
  let w' := world_after (processEmail env "alice" nul_subject) fresh_world in
  has_NUL (content_subject nul_subject_content) = true /\
  emailLogs w' = [] /\
  activities w' = [] /\
  calls w' = [GetEmailContent "m3"; AnalyzeEmail "alice" ""].
Proof.
  intros env w'. split; [reflexivity|].
  destruct (processEmail_row_refused env "alice" nul_subject [] nul_subject_content
              opening_analysis fresh_world)
    as (_ & Hcalls & Hlogs & Hacts & _); try reflexivity.
  split; [exact Hlogs|]. split; [exact Hacts | exact Hcalls].
Defined.

Lemma processEmail_other_action_witness :
  dispatches env_classifier_down "alice" opening fresh_world opening_content
             ignore_analysis /\
  calls (world_after (processEmail env_classifier_down "alice" opening)
                     fresh_world)
  = [GetEmailContent "m0"; AnalyzeEmail "alice" ""].
Proof.
  split; [exact opening_ignored|].
  apply (processEmail_other_action env_classifier_down "alice" opening
           opening_content ignore_analysis fresh_world opening_ignored);
    discriminate.
Defined.

Lemma processEmail_star_witness :
  dispatches env_star "alice" opening fresh_world opening_content star_analysis /\
  calls (world_after (processEmail env_star "alice" opening) fresh_world)
  = [GetEmailContent "m0"; AnalyzeEmail "alice" ""; StarEmail "alice" "m0"].
Proof.
  split; [exact opening_starred|].
  apply (processEmail_star env_star "alice" opening opening_content
           star_analysis fresh_world opening_starred eq_refl).
Defined.

Lemma processEmail_reply_sent_witness :
  let env := env_confidence (JSNum (Finite (9 # 10))) in
  dispatches env "alice" opening fresh_world opening_content opening_analysis /\
  calls (world_after (processEmail env "alice" opening) fresh_world)
  = [GetEmailContent "m0"; AnalyzeEmail "alice" "";
     GenerateReply "alice" "" "hr@corp.example"; GetEmailContent "m0";
     SendEmail "alice" "hr@corp.example" "Re: Opening" resume_reply].
Proof.
  intros env.
  assert (Hd : dispatches env "alice" opening fresh_world opening_content
                 opening_analysis)
    by (apply opening_dispatched; reflexivity).
  split; [exact Hd|].
  apply (processEmail_reply_sent env "alice" opening opening_content
           opening_analysis resume_reply fresh_world Hd eq_refl);
    reflexivity.
Defined.

Lemma processEmail_twice_witness :
  let w' := world_after (processEmail env_star "alice" opening) fresh_world in
  chronological fresh_world /\
  processEmail env_star "alice" opening w' = (w', Returns tt).
Proof.
  intros w'. split; [reflexivity|].
  apply (processEmail_twice env_star "alice" opening opening_content
           star_analysis fresh_world); [reflexivity | exact opening_starred].
Defined.

Lemma processEmail_skips_recent_witness :
  let w := world_after (processEmail env_star "alice" opening) fresh_world in
  chronological w /\
  processEmail env_day "alice" opening w = (w, Returns tt).
Proof.
  intros w.
  assert (Hw : chronological w) by reflexivity.
  split; [exact Hw|].
  apply (processEmail_skips_recent env_day "alice" opening []
           (pending_row "alice" opening opening_content "star" fresh_world)
           (drop 1 (emailLogs w)) w Hw).
  - reflexivity.
  - reflexivity.
  - reflexivity.
  - vm_compute. lia.
Defined.

Lemma getUserStats_counts_rows_witness :
  dispatches env_star "alice" opening fresh_world opening_content star_analysis /\
  exists before after,
    outcome_of (getUserStats Math_round_percent "alice") fresh_world = Returns before /\
    outcome_of (getUserStats Math_round_percent "alice")
               (world_after (processEmail env_star "alice" opening) fresh_world)
    = Returns after /\
    emailsProcessed after = emailsProcessed before + 2.
Proof.
  split; [exact opening_starred|].
  destruct (getUserStats_counts_rows env_star Math_round_percent "alice" opening
              opening_content star_analysis fresh_world opening_starred)
    as (before & after & Hb & Ha & Hn & _).
  exists before, after. split; [exact Hb|]. split; [exact Ha | exact Hn].
Defined.

Lemma generateReply_outcome_witness :
  outcome_of (getUserCredentials "alice") fresh_world = Returns (Some alice) /\
  exists text,
    outcome_of (generateReply env_generation_rejected "alice" ""
                  "hr@corp.example") fresh_world = Returns text /\
    text <> "".
Proof.
  split; [reflexivity|].
  destruct (generateReply_outcome env_generation_rejected "alice" ""
              "hr@corp.example" (Some alice) fresh_world eq_refl)
    as (_ & _ & Hkey).
  destruct (Hkey eq_refl) as (text & Hout & Hne & _).
  exists text. split; [exact Hout | exact Hne].
Defined.

Lemma analyzeEmail_outcome_witness :
  let env := env_confidence (JSArray [JSString "high"]) in
  (outcome_of (getUserCredentials "bob") fresh_world = Returns None /\
   outcome_of (analyzeEmail env "bob" "") fresh_world
   = Throws (Error "OpenAI API key not configured")) /\
  (outcome_of (getUserCredentials "alice") fresh_world = Returns (Some alice) /\
   exists a,
     outcome_of (analyzeEmail env "alice" "") fresh_world = Returns a /\
     an_confidence a = NaN).
Proof.
  intros env. split.
  - split; [reflexivity|].
    destruct (analyzeEmail_outcome env "bob" "" None fresh_world eq_refl)
      as (_ & Hnokey & _).
    apply Hnokey. reflexivity.
  - split; [reflexivity|].
    destruct (analyzeEmail_outcome env "alice" "" (Some alice) fresh_world
                eq_refl) as (_ & _ & Hkey).
    destruct (Hkey eq_refl) as (a & Hout & _ & _ & _ & _ & Hraw).
    exists a. split; [exact Hout|].
    destruct (Hraw (answer (JSArray [JSString "high"])) eq_refl)
      as (_ & _ & Hnan & _).
    apply Hnan. split; reflexivity.
Defined.

Lemma gmail_calls_need_token_witness :
  outcome_of (getUserCredentials "bob") fresh_world = Returns None /\
  outcome_of (sendEmail env_star "bob" "hr@corp.example" "Re: Opening" "Hi")
             fresh_world
  = Throws (Error "Gmail not connected").
Proof.
  split; [reflexivity|].
  destruct (gmail_calls_need_token env_star "bob" None fresh_world eq_refl)
    as (Hnone & _).
  destruct (Hnone eq_refl) as (_ & Hsend & _). apply Hsend.
Defined.

Lemma extract_content_parts_witness :
  exists content,
    extract_content env_star two_parts = Some content /\
    content_body content = base64_toString env_star "SGk=".
Proof.
  destruct (extract_content_parts env_star two_parts
              {| headers := Some [ {| name := "From"; value := "hr@corp.example" |} ];
                 body_data := None;
                 parts := Some [ {| mimeType := "text/html";
                                    part_data := Some "PGI+SGk8L2I+" |};
                                 {| mimeType := "text/plain";
                                    part_data := Some "SGk=" |} ] |}
              [ {| name := "From"; value := "hr@corp.example" |} ]
              eq_refl eq_refl eq_refl) as (Hfirst & _).
  apply (Hfirst [ {| mimeType := "text/html"; part_data := Some "PGI+SGk8L2I+" |} ]
                {| mimeType := "text/plain"; part_data := Some "SGk=" |}
                "SGk=" []).
  - reflexivity.
  - constructor; [reflexivity | constructor].
  - reflexivity.
  - reflexivity.
  - discriminate.
Defined.

Lemma started_for_alice :
  reachable env_star (fst (startMonitoring env_star "alice" (initial, fresh_world))).
Proof.
  apply (reachable_step env_star (initial, fresh_world)).
  - apply reachable_initial.
  - apply step_start.
Qed.

Lemma scheduler_leaves_others_witness :
  let s := fst (fst (startMonitoring env_star "alice" (initial, fresh_world))) in
  "alice" <> "bob" /\
  monitoringIntervals (startMonitoring_sync "bob" s) !! "alice"
  = monitoringIntervals s !! "alice".
Proof.
  intros s. split; [discriminate|].
  apply (scheduler_leaves_others env_star
           (fst (startMonitoring env_star "alice" (initial, fresh_world)))
           "bob" "alice" started_for_alice).
  discriminate.
Defined.

Lemma scheduler_no_orphan_timer_witness :
  let s := fst (fst (startMonitoring env_star "alice" (initial, fresh_world))) in
  intervals (foldr stopMonitoring s (elements (dom (monitoringIntervals s)))) = ∅.
Proof.
  intros s.
  apply (scheduler_no_orphan_timer env_star
           (fst (startMonitoring env_star "alice" (initial, fresh_world)))
           started_for_alice).
Defined.

Lemma start_then_stop_witness :
  let s := fst (fst (startMonitoring env_star "alice" (initial, fresh_world))) in
  no_task (stopMonitoring "bob" (startMonitoring_sync "bob" s)) "bob".
Proof.
  intros s.
  apply (start_then_stop env_star
           (fst (startMonitoring env_star "alice" (initial, fresh_world)))
           "bob" started_for_alice).
Defined.



Lemma alreadyProcessed_per_user_witness :
  let w := world_after (processEmail env_star "alice" opening) fresh_world in
  exists logs,
    outcome_of (getUserEmailLogs "bob" None) w = Returns logs /\
    alreadyProcessed logs opening = false.
Proof.
  intros w.
  apply (alreadyProcessed_per_user "bob" opening w).
  intros r Hr _ Hbob.
  destruct Hr as [<- | [<- | []]]; discriminate Hbob.
Defined.
